(** * resume-ats-analyzer: the text-analysis core of [backend/utils.py]

    A shallow embedding of [extract_text], [_tokenize], [extract_keywords],
    [_filter_tokens], [compute_ats_score] and [generate_suggestions], and
    of the handler [analyze_resume] of [backend/app.py] that calls them,
    with the properties the specification states about them.

    Conventions of the embedding.
    - A Python [str] is a list of Unicode code points ([list N]).
    - A Python [set] of strings is a [gset (list N)]; a [Counter] is an
      association list in insertion order, since [most_common] resolves
      ties by that order.
    - A Python [float] is a finite non-negative binary64 number, given by
      its integer significand and exponent; every arithmetic step rounds
      to nearest, ties to even.
    - The Unicode character database is not part of the repository: its
      lowercase mapping and its decimal-digit property enter as section
      variables for the code points above ASCII, where the two functions
      are fixed by the language for ASCII. Its uppercase mapping, which
      the code never calls, serves only to say what a difference in
      letter case is. *)

From Stdlib Require Import ZArith NArith List Lia.
From stdpp Require Import base gmap sets list strings sorting lexico.

#[local] Set Warnings "-clear-no-such-hyp".

(* ===================================================================== *)
(** * Strings *)

(** An ASCII literal as a sequence of code points. *)
Definition lit (s : string) : list N :=
  Ascii.N_of_ascii <$> String.list_ascii_of_string s.

Definition is_upper (c : N) : bool := (65 <=? c)%N && (c <=? 90)%N.
Definition is_lower_az (c : N) : bool := (97 <=? c)%N && (c <=? 122)%N.

(** The character class [[a-zA-Z]]. *)
Definition is_alpha (c : N) : bool := is_lower_az c || is_upper c.

(** [s.startswith(prefix)]. *)
Fixpoint startswith (s prefix : list N) : bool :=
  match prefix, s with
  | [], _ => true
  | p :: prefix', c :: s' => (c =? p)%N && startswith s' prefix'
  | _ :: _, [] => false
  end.

(** [needle in hay] on strings: a contiguous occurrence. *)
Fixpoint contains (hay needle : list N) : bool :=
  match hay with
  | [] => startswith [] needle
  | _ :: hay' => startswith hay needle || contains hay' needle
  end.

(** [re.findall(r"[a-zA-Z]+", s)]: the scanner keeps the run it is in and
    emits it at the first character outside the class, or at the end. *)
Definition flush (run : list N) : list (list N) :=
  match run with [] => [] | _ :: _ => [run] end.

Fixpoint findall_alpha_from (run s : list N) : list (list N) :=
  match s with
  | [] => flush run
  | c :: s' =>
      if is_alpha c then findall_alpha_from (run ++ [c]) s'
      else flush run ++ findall_alpha_from [] s'
  end.

Definition findall_alpha (s : list N) : list (list N) := findall_alpha_from [] s.

(** [str.isspace] for one code point (the whitespace table of CPython). *)
Definition is_space (c : N) : bool :=
  ((9 <=? c) && (c <=? 13) || (28 <=? c) && (c <=? 32) || (c =? 133)
   || (c =? 160) || (c =? 5760) || (8192 <=? c) && (c <=? 8202)
   || (c =? 8232) || (c =? 8233) || (c =? 8239) || (c =? 8287)
   || (c =? 12288))%N.

Fixpoint lstrip (s : list N) : list N :=
  match s with
  | [] => []
  | c :: s' => if is_space c then lstrip s' else s
  end.

Definition rstrip (s : list N) : list N := rev (lstrip (rev s)).
Definition strip (s : list N) : list N := rstrip (lstrip s).

(** Line boundaries of [str.splitlines], apart from the two-character
    boundary CR LF. *)
Definition is_linebreak (c : N) : bool :=
  ((10 <=? c) && (c <=? 13) || (28 <=? c) && (c <=? 30) || (c =? 133)
   || (c =? 8232) || (c =? 8233))%N.

(** [str.splitlines()]: every boundary closes a line, also an empty one;
    what follows the last boundary is a line only when it is not empty. *)
Fixpoint splitlines_from (line s : list N) : list (list N) :=
  match s with
  | [] => flush line
  | c :: s' =>
      if (c =? 13)%N then
        match s' with
        | 10%N :: s'' => line :: splitlines_from [] s''
        | _ => line :: splitlines_from [] s'
        end
      else if is_linebreak c then line :: splitlines_from [] s'
      else splitlines_from (line ++ [c]) s'
  end.

Definition splitlines (s : list N) : list (list N) := splitlines_from [] s.

(** [sorted] over a set of strings: [list.sort] orders by [<], which on
    [str] is the lexicographic order of the code points. *)
Definition str_le (a b : list N) : Prop := ¬ lexico b a.

Definition sorted (keywords : gset (list N)) : list (list N) :=
  merge_sort str_le (elements keywords).

(* ===================================================================== *)
(** * collections.Counter *)

(** [mapping[elem] = mapping.get(elem, 0) + 1] on an insertion-ordered
    dict: a key keeps the place of its first insertion. *)
Fixpoint count_elem (elem : list N) (mapping : list (list N * nat))
  : list (list N * nat) :=
  match mapping with
  | [] => [(elem, 1)]
  | (k, v) :: mapping' =>
      if decide (k = elem) then (k, S v) :: mapping'
      else (k, v) :: count_elem elem mapping'
  end.

Definition Counter (iterable : list (list N)) : list (list N * nat) :=
  foldl (λ mapping elem, count_elem elem mapping) [] iterable.

(** Sorting the items by count, largest first; items of equal count keep
    the order they have in the dict. *)
Fixpoint insert_by_count (x : list N * nat) (l : list (list N * nat))
  : list (list N * nat) :=
  match l with
  | [] => [x]
  | y :: l' => if decide (x.2 < y.2) then y :: insert_by_count x l' else x :: l
  end.

Fixpoint sort_by_count (items : list (list N * nat)) : list (list N * nat) :=
  match items with
  | [] => []
  | x :: items' => insert_by_count x (sort_by_count items')
  end.

(** [Counter.most_common(n)] for an integer [n]: the [n] items of largest
    count, "elements with equal counts are ordered in the order first
    encountered"; none for [n <= 0]. *)
Definition most_common (freq : list (list N * nat)) (n : Z) : list (list N * nat) :=
  take (Z.to_nat n) (sort_by_count freq).

(* ===================================================================== *)
(** * Module constants *)

Definition STOPWORDS : gset (list N) :=
  list_to_set (lit <$>
    [ "the"; "and"; "to"; "of"; "in"; "a"; "for"; "on"; "with"; "as"; "is";
      "are"; "was"; "were"; "be"; "been"; "it"; "that"; "this"; "by"; "at";
      "an"; "from"; "or"; "we"; "you"; "your"; "our"; "their"; "they"; "i";
      "have"; "has"; "had"; "will"; "would"; "can"; "could"; "should"; "may";
      "if"; "but"; "about"; "into"; "up"; "out"; "than"; "more"; "so"; "such" ]).

Definition SKILL_KEYWORDS : list (list N) :=
  lit <$>
    [ "python"; "java"; "javascript"; "typescript"; "c++"; "c#"; "sql";
      "html"; "css"; "react"; "angular"; "node"; "django"; "flask";
      "aws"; "azure"; "gcp"; "docker"; "kubernetes"; "git"; "linux";
      "pandas"; "numpy"; "tensorflow"; "pytorch"; "machine learning";
      "data analysis"; "communication"; "leadership"; "project management";
      "problem solving"; "teamwork"; "time management"; "analysis" ].

(* ===================================================================== *)
(** * Floating point *)

(** A finite non-negative binary64 number [Fnum * 2 ^ Fexp], normalised:
    [2^52 <= Fnum < 2^53], or [Fexp = -1074] for a subnormal, or
    [Float 0 0] for [0.0]. *)
Record float := Float { Fnum : Z; Fexp : Z }.

Definition float_zero : float := Float 0 0.

(** The value of a float in units of [2 ^ -1074], the smallest positive
    binary64 number: an integer, since every binary64 number is a multiple
    of that unit. *)
Definition float_units (x : float) : Z := (Fnum x * 2 ^ (Fexp x + 1074))%Z.

(** Comparison of two floats by value. *)
Definition float_le (x y : float) : Prop := (float_units x <= float_units y)%Z.

(** The nearest integer to [a / b], ties to even ([0 <= a], [0 < b]). *)
Definition round_half_even (a b : Z) : Z :=
  let q := (a / b)%Z in
  let r := (a mod b)%Z in
  if (2 * r <? b)%Z then q
  else if (b <? 2 * r)%Z then (q + 1)%Z
  else if Z.even q then q else (q + 1)%Z.

(** The binary64 number nearest to [p / q], ties to even ([0 <= p],
    [0 < q]). The ratio is taken in units of [2 ^ -1074]; a significand
    has 53 bits, so from [2 ^ 53] units on the spacing [2 ^ e] of the
    numbers doubles with every binade. Every ratio rounded by the program
    is at most 100, far below the overflow threshold, so there is no
    infinity. *)
Definition round_binary64 (p q : Z) : float :=
  let units := (p * 2 ^ 1074)%Z in
  let e := Z.max (Z.log2 (units / q) - 52) 0 in
  let m := round_half_even units (q * 2 ^ e) in
  if (m =? 0)%Z then float_zero
  else if (m =? 2 ^ 53)%Z then Float (2 ^ 52) (e + 1 - 1074)
  else Float m (e - 1074).

Definition float_of_Z (n : Z) : float := round_binary64 n 1.

(** [a / b] on two lengths: the correctly rounded quotient, and
    [ZeroDivisionError] ([None]) for a zero divisor. *)
Definition int_truediv (a b : nat) : option float :=
  if decide (b = 0) then None
  else Some (round_binary64 (Z.of_nat a) (Z.of_nat b)).

(** [x * k] for a float [x] and a small non-negative integer [k]: the
    exact product, rounded. *)
Definition float_mul_int (x : float) (k : Z) : float :=
  round_binary64 (float_units x * k) (2 ^ 1074).

(** [round(x, ndigits)]: the decimal with [ndigits] places nearest to the
    exact value of [x] (ties to even), converted back to the nearest
    float. *)
Definition py_round (x : float) (ndigits : nat) : float :=
  let scale := (10 ^ Z.of_nat ndigits)%Z in
  round_binary64 (round_half_even (float_units x * scale) (2 ^ 1074)) scale.

(* ===================================================================== *)
(** * Files *)

(** How a call into the file system or into a parser library ends. *)
Inductive outcome (A : Type) : Type :=
  | Returned (a : A)
  | Raised.
Arguments Returned {A} a.
Arguments Raised {A}.

(** What the environment does for a path: [docx.Document(path)] with the
    texts of its paragraphs, [pdfminer.high_level.extract_text(path)], and
    [open(path, "r", encoding="utf-8", errors="ignore").read()]. A missing
    library makes the call raise (at the import). *)
Record environment := {
  docx_paragraphs : list N → outcome (list (list N));
  pdf_extract_text : list N → outcome (list N);
  read_text : list N → outcome (list N);
}.

Fixpoint until (sep : N) (s : list N) : list N :=
  match s with
  | [] => []
  | c :: s' => if (c =? sep)%N then [] else c :: until sep s'
  end.

Fixpoint skip (dot : N) (s : list N) : list N :=
  match s with
  | [] => []
  | c :: s' => if (c =? dot)%N then skip dot s' else s
  end.

(** [os.path.splitext(p)[1]] (POSIX): the suffix from the last dot of the
    last path component, leading dots of the component not counted. *)
Definition splitext_ext (p : list N) : list N :=
  let component := rev (until 47 (rev p)) in
  let stem := skip 46 component in
  if bool_decide (46%N ∈ stem) then 46%N :: rev (until 46 (rev stem)) else [].

(** [sep.join(parts)]. *)
Fixpoint join (sep : list N) (parts : list (list N)) : list N :=
  match parts with
  | [] => []
  | [p] => p
  | p :: parts' => p ++ sep ++ join sep parts'
  end.

(** [str.upper] of one code point, given the mapping of the code points
    above ASCII, and [s.upper()], code point by code point. *)
Definition upper_cp (uni_upper : N → list N) (c : N) : list N :=
  if is_lower_az c then [(c - 32)%N]
  else if (c <? 128)%N then [c]
  else uni_upper c.

Definition upper (uni_upper : N → list N) (s : list N) : list N :=
  flat_map (upper_cp uni_upper) s.

(** The case mappings of the Unicode database (version 14.0) restricted
    to what reaches ASCII. Lowercase: KELVIN SIGN gives [k], LATIN
    CAPITAL LETTER I WITH DOT ABOVE gives [i] and a combining dot.
    Uppercase: LATIN SMALL LETTER LONG S gives [S], DOTLESS I gives [I],
    SHARP S gives [SS], and so on through the ligatures. Every other
    code point is left alone. *)
Definition latin_lower (c : N) : list N :=
  if (c =? 8490)%N then [107%N]
  else if (c =? 304)%N then [105%N; 775%N]
  else [c].

Definition latin_upper (c : N) : list N :=
  if (c =? 223)%N then [83%N; 83%N]
  else if (c =? 305)%N then [73%N]
  else if (c =? 329)%N then [700%N; 78%N]
  else if (c =? 383)%N then [83%N]
  else if (c =? 496)%N then [74%N; 780%N]
  else if (c =? 7830)%N then [72%N; 817%N]
  else if (c =? 7831)%N then [84%N; 776%N]
  else if (c =? 7832)%N then [87%N; 778%N]
  else if (c =? 7833)%N then [89%N; 778%N]
  else if (c =? 7834)%N then [65%N; 702%N]
  else if (c =? 64256)%N then [70%N; 70%N]
  else if (c =? 64257)%N then [70%N; 73%N]
  else if (c =? 64258)%N then [70%N; 76%N]
  else if (c =? 64259)%N then [70%N; 70%N; 73%N]
  else if (c =? 64260)%N then [70%N; 70%N; 76%N]
  else if (c =? 64261)%N then [83%N; 84%N]
  else if (c =? 64262)%N then [83%N; 84%N]
  else [c].

(** The decimal digits above ASCII (category Nd of the same database):
    the code points of the digit zero of each script, each followed by
    its digits one to nine. *)
Definition decimal_zeros : list N :=
  [1632; 1776; 1984; 2406; 2534; 2662; 2790; 2918; 3046; 3174; 3302; 3430;
   3558; 3664; 3792; 3872; 4160; 4240; 6112; 6160; 6470; 6608; 6784; 6800;
   6992; 7088; 7232; 7248; 42528; 43216; 43264; 43472; 43504; 43600; 44016;
   65296; 66720; 68912; 69734; 69872; 69942; 70096; 70384; 70736; 70864;
   71248; 71360; 71472; 71904; 72016; 72784; 73040; 73120; 92768; 92864;
   93008; 120782; 120792; 120802; 120812; 120822; 123200; 123632; 125264;
   130032]%N.

Definition latin_decimal (c : N) : bool :=
  existsb (λ zero, (zero <=? c)%N && (c <? zero + 10)%N) decimal_zeros.

(* ===================================================================== *)
(** * The endpoint (app.py) *)

Module app.

(** The upload as the handler uses it: [file.filename] and the bytes of
    [await file.read()]. *)
Record UploadFile := {
  filename : option (list N);
  content : list Byte.byte;
}.

(** The response model. *)
Record AnalysisResult := {
  keywords : list (list N);
  ats_score : float;
  suggestions : list (list N);
}.

End app.

(** An installation for examples: neither parser library is installed, the
    decoder is the one of ASCII bytes (the text-mode read of bytes below
    128 with no carriage return), temporary files are made in [/tmp],
    always written and always removed. *)
Definition missing_docx (bytes : list Byte.byte) : outcome (list (list N)) := Raised.
Definition missing_pdf (bytes : list Byte.byte) : outcome (list N) := Raised.
Definition ascii_decode (bytes : list Byte.byte) : list N := Byte.to_N <$> bytes.
Definition sample_tempdir : list N := lit "/tmp".
Definition sample_temp_stem (fs : gmap (list N) (list Byte.byte)) : list N :=
  lit "tmpk3x9_a1b".
Definition always_creatable (fs : gmap (list N) (list Byte.byte))
    (path : list N) : bool := true.
Definition nothing_left_behind (fs : gmap (list N) (list Byte.byte))
    (path : list N) (contents : list Byte.byte) : option (list Byte.byte) := None.
Definition always_unlinkable (fs : gmap (list N) (list Byte.byte))
    (path : list N) : bool := true.

(** An installation whose disk is full: the file is created, no byte
    reaches it, and the block raises. *)
Definition never_creatable (fs : gmap (list N) (list Byte.byte))
    (path : list N) : bool := false.
Definition empty_left_behind (fs : gmap (list N) (list Byte.byte))
    (path : list N) (contents : list Byte.byte) : option (list Byte.byte) := Some [].

(** A file system with one DOCX file of two paragraphs, and one where
    every call raises. *)
Definition sample_docx_environment : environment :=
  {| docx_paragraphs _ := Returned [lit "- Led a team"; lit "- Cut costs by 20%"];
     pdf_extract_text _ := Raised;
     read_text _ := Raised |}.

Definition failing_environment : environment :=
  {| docx_paragraphs _ := Raised;
     pdf_extract_text _ := Raised;
     read_text _ := Raised |}.

(** An upload named [cv.TXT] on an empty file system. *)
Definition sample_upload : app.UploadFile :=
  {| app.filename := Some (lit "cv.TXT");
     app.content := String.list_byte_of_string "- Led a team of 5" |}.

(* ===================================================================== *)
(** * The analysis stages *)

Section Analysis.

(** [str.lower] of one code point above ASCII, and [\d] above ASCII,
    both read from the Unicode database of the interpreter. *)
Variable uni_lower : N → list N.
Variable uni_decimal : N → bool.

Definition lower_cp (c : N) : list N :=
  if is_upper c then [(c + 32)%N]
  else if (c <? 128)%N then [c]
  else uni_lower c.

(** [s.lower()], code point by code point. The one rule of [str.lower]
    that looks at the neighbours (capital sigma at the end of a word)
    chooses between two code points above ASCII, which no function below
    tells apart. *)
Definition lower (s : list N) : list N := flat_map lower_cp s.

(** The character class [\d] of a [str] pattern. *)
Definition is_digit (c : N) : bool :=
  if (c <? 128)%N then (48 <=? c)%N && (c <=? 57)%N else uni_decimal c.

(** [re.search(r"\d", line)] as a truth value. *)
Definition search_digit (line : list N) : bool := existsb is_digit line.

Definition extract_text (env : environment) (file_path : list N)
  : outcome (list N) :=
  let ext := lower (splitext_ext file_path) in
  let parsed : outcome (option (list N)) :=
    if decide (ext = lit ".docx") then
      match docx_paragraphs env file_path with
      | Returned paragraphs => Returned (Some (join [10%N] paragraphs))
      | Raised => Raised
      end
    else if decide (ext = lit ".pdf") then
      match pdf_extract_text env file_path with
      | Returned text => Returned (Some (match text with [] => [] | _ => text end))
      | Raised => Raised
      end
    else Returned None in
  match parsed with
  | Returned (Some text) => Returned text
  | Returned None | Raised =>
      match read_text env file_path with
      | Returned text => Returned text
      | Raised => Returned []
      end
  end.

Definition _tokenize (text : list N) : list (list N) :=
  findall_alpha (lower text).

Definition extract_keywords (text : list N) (top_n : Z) : list (list N) :=
  let keywords : gset (list N) := ∅ in
  let lower_text := lower text in
  let keywords :=
    foldl (λ keywords kw,
             if contains lower_text (lower kw) then keywords ∪ {[ kw ]}
             else keywords)
          keywords SKILL_KEYWORDS in
  let tokens :=
    filter (λ t, (t ∉ STOPWORDS) ∧ 2 < length t) (_tokenize text) in
  let freq := Counter tokens in
  let keywords :=
    foldl (λ keywords item, keywords ∪ {[ item.1 ]})
          keywords (most_common freq top_n) in
  sorted keywords.

Definition _filter_tokens (tokens : gset (list N)) : gset (list N) :=
  filter (λ t, (t ∉ STOPWORDS) ∧ 2 < length t) tokens.

Definition compute_ats_score (resume_text job_description : list N)
  : option float :=
  let resume_tokens : gset (list N) := list_to_set (_tokenize resume_text) in
  let job_tokens : gset (list N) := list_to_set (_tokenize job_description) in
  let resume_filtered := _filter_tokens resume_tokens in
  let job_filtered := _filter_tokens job_tokens in
  if decide (job_filtered = ∅) then Some float_zero
  else
    let intersection := job_filtered ∩ resume_filtered in
    ratio ← int_truediv (size intersection) (size job_filtered);
    let score := float_mul_int ratio 100 in
    Some (py_round score 2).

Definition is_bullet (line : list N) : bool :=
  startswith line [45%N] || startswith line [42%N] || startswith line [8226%N].

Definition quantify_message (line : list N) : list N :=
  lit "Consider quantifying this bullet: '" ++ line ++ lit "'".

Definition fallback_message : list N :=
  lit "Include more action verbs and quantify achievements with numbers and percentages.".

Definition generate_suggestions (resume_text : list N) : list (list N) :=
  let lines := splitlines resume_text in
  let bullet_lines :=
    strip <$> filter (λ line, Is_true (is_bullet (strip line))) lines in
  let suggestions :=
    foldl (λ suggestions line,
             if negb (search_digit line)
             then suggestions ++ [quantify_message line]
             else suggestions)
          [] bullet_lines in
  match suggestions with
  | [] => suggestions ++ [fallback_message]
  | _ :: _ => suggestions
  end.

(** The libraries behind the endpoint, as functions of the bytes of a
    file: python-docx, pdfminer, and the text-mode read with
    [encoding="utf-8", errors="ignore"]; the directory of temporary files
    and the name (prefix and random part) that [tempfile] picks in it;
    whether the [with] block, in a given state of the file system,
    creates, writes and closes a file of a given name (it raises for a
    suffix with a NUL character or one that is too long, or on a full
    disk), and what it leaves at that name when it raises: nothing when
    the file was not created, the bytes that reached the file otherwise;
    whether [os.unlink] removes a file or raises. *)
Variable parse_docx : list Byte.byte → outcome (list (list N)).
Variable parse_pdf : list Byte.byte → outcome (list N).
Variable decode_utf8 : list Byte.byte → list N.
Variable tempdir : list N.
Variable temp_stem : gmap (list N) (list Byte.byte) → list N.
Variable creatable : gmap (list N) (list Byte.byte) → list N → bool.
Variable left_behind :
  gmap (list N) (list Byte.byte) → list N → list Byte.byte → option (list Byte.byte).
Variable unlinkable : gmap (list N) (list Byte.byte) → list N → bool.

(** What [extract_text] meets on a file system: a call on a missing
    file raises. *)
Definition file_environment (fs : gmap (list N) (list Byte.byte)) : environment :=
  {| docx_paragraphs path :=
       match fs !! path with Some bytes => parse_docx bytes | None => Raised end;
     pdf_extract_text path :=
       match fs !! path with Some bytes => parse_pdf bytes | None => Raised end;
     read_text path :=
       match fs !! path with
       | Some bytes => Returned (decode_utf8 bytes)
       | None => Raised
       end |}.

(** [analyze_resume]: the upload is written to a temporary file named
    with the suffix of the uploaded name, made with [delete=False]; an
    error there leaves the handler before the [try], so nothing removes
    what the block left. Then the text is extracted from the file, the
    file is unlinked ([finally], also when extraction raises; an error
    of [os.unlink] is swallowed and the file stays), and the three
    stages run on the text. The file system is threaded through. *)
Definition analyze_resume (fs : gmap (list N) (list Byte.byte))
    (file : app.UploadFile) (job_description : list N)
  : outcome app.AnalysisResult * gmap (list N) (list Byte.byte) :=
  let contents := app.content file in
  let suffix := splitext_ext (default [] (app.filename file)) in
  let tmp_path := tempdir ++ [47%N] ++ temp_stem fs ++ suffix in
  if creatable fs tmp_path then
    let fs := <[tmp_path := contents]> fs in
    let extracted := extract_text (file_environment fs) tmp_path in
    let fs := if unlinkable fs tmp_path then delete tmp_path fs else fs in
    match extracted with
    | Raised => (Raised, fs)
    | Returned resume_text =>
        let keywords := extract_keywords resume_text 10 in
        match compute_ats_score resume_text job_description with
        | None => (Raised, fs)
        | Some ats_score =>
            let suggestions := generate_suggestions resume_text in
            (Returned (app.Build_AnalysisResult keywords ats_score suggestions), fs)
        end
    end
  else
    (Raised,
     match left_behind fs tmp_path contents with
     | Some partial => <[tmp_path := partial]> fs
     | None => fs
     end).

(* =================================================================== *)
(** * Vocabulary of the properties *)

(** The maximal runs of [[a-zA-Z]] in a string, in order: a character
    outside the class is skipped; a run is not empty, lies within the
    class and ends at the end of the string or before a character
    outside the class. *)
Inductive alpha_runs : list N → list (list N) → Prop :=
  | runs_end : alpha_runs [] []
  | runs_separator c s ts :
      is_alpha c = false → alpha_runs s ts → alpha_runs (c :: s) ts
  | runs_token t s ts :
      t ≠ [] → Forall (λ c, is_alpha c = true) t →
      (∀ c, head s = Some c → is_alpha c = false) →
      alpha_runs s ts → alpha_runs (t ++ s) (t :: ts).

(** The number of times [x] occurs in [l], and the position of its
    first occurrence ([length l] when there is none). *)
Definition occurrences (x : list N) (l : list (list N)) : nat :=
  length (filter (x =.) l).

Fixpoint first_index (x : list N) (l : list (list N)) : nat :=
  match l with
  | [] => 0
  | y :: l' => if decide (y = x) then 0 else S (first_index x l')
  end.

(** Step 1 of [extract_keywords]: the dictionary entries found in the
    text. Step 2: the tokens that are counted, and the words of the
    [top_n] most common ones. *)
Definition skill_matches (text : list N) : list (list N) :=
  filter (λ kw, contains (lower text) (lower kw) = true) SKILL_KEYWORDS.

Definition counted_tokens (text : list N) : list (list N) :=
  filter (λ t, (t ∉ STOPWORDS) ∧ 2 < length t) (_tokenize text).

Definition frequent_tokens (text : list N) (top_n : Z) : list (list N) :=
  (most_common (Counter (counted_tokens text)) top_n).*1.

(** The filtered token set of a text, as [compute_ats_score] builds it. *)
Definition filtered_tokens (text : list N) : gset (list N) :=
  _filter_tokens (list_to_set (_tokenize text)).

(** The distinct elements of a list in the order of their first
    occurrence: the key order of a [Counter] built from the list. *)
Definition first_seen (l : list (list N)) : list (list N) :=
  reverse (remove_dups (reverse l)).

(** The order of [most_common] on the items of a [Counter] of [l]:
    larger count first, and among equal counts the key seen first. *)
Definition ranks_before (l : list (list N)) (a b : list N * nat) : Prop :=
  b.2 < a.2 ∨ (a.2 = b.2 ∧ first_index a.1 l < first_index b.1 l).

(** The distinct tokens of [l] that are more frequent than [t], a tie
    going to the token seen first: those that occur more often than [t],
    and those that occur as often and come first earlier in [l]. *)
Definition outranking (l : list (list N)) (t : list N) : list (list N) :=
  filter (λ u, occurrences t l < occurrences u l
               ∨ (occurrences u l = occurrences t l
                  ∧ first_index u l < first_index t l))
         (first_seen l).

(** The value, in units of [2 ^ -1074], that [round_binary64] gives
    [p / q]. *)
Definition round_units (p q : Z) : Z :=
  let units := (p * 2 ^ 1074)%Z in
  let e := Z.max (Z.log2 (units / q) - 52) 0 in
  (round_half_even units (q * 2 ^ e) * 2 ^ e)%Z.

(** The score for [k] matching tokens out of [n]:
    [round(k / n * 100, 2)]. *)
Definition score_of_counts (k n : nat) : float :=
  py_round (float_mul_int (round_binary64 (Z.of_nat k) (Z.of_nat n)) 100) 2.

(** The value [compute_ats_score] returns. *)
Definition ats_score (resume_text job_description : list N) : float :=
  if decide (filtered_tokens job_description = ∅) then float_zero
  else score_of_counts
         (size (filtered_tokens job_description ∩ filtered_tokens resume_text))
         (size (filtered_tokens job_description)).

(** One returned score is at most another. *)
Definition score_le (a b : option float) : Prop :=
  match a, b with
  | Some x, Some y => float_le x y
  | _, _ => False
  end.

(** An ASCII character outside [[a-zA-Z]]: a blank, a digit, a
    punctuation mark. *)
Definition is_separator (c : N) : bool := (c <? 128)%N && negb (is_alpha c).

(** The bullet lines of a text, trimmed: the lines that, once trimmed,
    start with [-], [*] or the bullet character; and those among them
    with no decimal digit. *)
Definition bullet_lines (text : list N) : list (list N) :=
  filter (λ line, is_bullet line = true) (strip <$> splitlines text).

Definition unquantified_bullets (text : list N) : list (list N) :=
  filter (λ line, search_digit line = false) (bullet_lines text).

(** Two strings that differ only in letter case, as the words say: the
    same length, and at every position the same code point, or two code
    points one of which is the lower-case or the upper-case form of the
    other. *)
Definition letter_case_variant (uni_upper : N → list N) (s s' : list N) : Prop :=
  Forall2 (λ c c', c = c'
                   ∨ lower_cp c = [c'] ∨ lower_cp c' = [c]
                   ∨ upper_cp uni_upper c = [c'] ∨ upper_cp uni_upper c' = [c])
          s s'.

(** The narrower relation that the analysis does ignore: the same
    length, and at every position the same code point, an ASCII letter
    in its two cases, or, with a code point above ASCII, two code points
    that [str.lower] takes to the same string. *)
Definition case_variant (s s' : list N) : Prop :=
  Forall2 (λ c c', c = c'
                   ∨ (is_upper c = true ∧ c' = (c + 32)%N)
                   ∨ (is_upper c' = true ∧ c = (c' + 32)%N)
                   ∨ (((128 <= c)%N ∨ (128 <= c')%N) ∧ lower_cp c = lower_cp c'))
          s s'.

(** What follows a carriage return in [str.splitlines]: a line feed right
    after it is part of the same line boundary. *)
Definition after_cr (s : list N) : list N :=
  match s with
  | 10%N :: s' => s'
  | _ => s
  end.

(** The environment of a single uploaded file: whatever the path, the
    calls see its bytes. *)
Definition upload_environment (bytes : list Byte.byte) : environment :=
  {| docx_paragraphs _ := parse_docx bytes;
     pdf_extract_text _ := parse_pdf bytes;
     read_text _ := Returned (decode_utf8 bytes) |}.

(** The response for an extracted text. *)
Definition response_for (resume_text job_description : list N)
  : app.AnalysisResult :=
  app.Build_AnalysisResult (extract_keywords resume_text 10)
    (ats_score resume_text job_description)
    (generate_suggestions resume_text).

(** The path of the temporary file of a request. *)
Definition temporary_path (fs : gmap (list N) (list Byte.byte))
    (file : app.UploadFile) : list N :=
  tempdir ++ [47%N] ++ temp_stem fs
  ++ splitext_ext (default [] (app.filename file)).

(** A name as [tempfile] makes it: not empty, with no dot and no slash. *)
Definition plain_stem (stem : list N) : Prop :=
  stem ≠ [] ∧ Forall (λ c, c ≠ 46%N ∧ c ≠ 47%N) stem.

Set Default Proof Using "Type".

(* =================================================================== *)
(** * The tokenizer *)

Lemma findall_alpha_from_run run t s :
  Forall (λ c, is_alpha c = true) t →
  findall_alpha_from run (t ++ s) = findall_alpha_from (run ++ t) s.
Proof.
  intros Ht. revert run. induction Ht as [|c t Hc _ IH]; intros run; simpl.
  - by rewrite app_nil_r.
  - rewrite Hc, IH. by rewrite <- app_assoc.
Qed.

Lemma findall_alpha_from_stop run s :
  (∀ c, head s = Some c → is_alpha c = false) →
  findall_alpha_from run s = flush run ++ findall_alpha_from [] s.
Proof.
  destruct s as [|c s]; simpl; intros Hs.
  - by rewrite app_nil_r.
  - by rewrite (Hs c eq_refl).
Qed.

Lemma alpha_runs_findall_alpha s ts :
  alpha_runs s ts → ts = findall_alpha s.
Proof.
  unfold findall_alpha. induction 1 as [|c s ts Hc _ IH|t s ts Ht Hal Hs _ IH].
  - done.
  - simpl. by rewrite Hc.
  - rewrite findall_alpha_from_run by done. simpl.
    rewrite findall_alpha_from_stop by done.
    destruct t; [done|]. simpl. by rewrite IH.
Qed.

Lemma findall_alpha_from_runs run s :
  Forall (λ c, is_alpha c = true) run →
  alpha_runs (run ++ s) (findall_alpha_from run s).
Proof.
  revert run. induction s as [|c s IH]; intros run Hrun; simpl.
  - destruct run as [|r run]; [constructor|].
    apply runs_token; [done|done|done|constructor].
  - destruct (is_alpha c) eqn:Hc.
    + replace (run ++ c :: s) with ((run ++ [c]) ++ s) by by rewrite <- app_assoc.
      apply IH. apply Forall_app; split; [done|]. by constructor.
    + assert (alpha_runs (c :: s) (findall_alpha_from [] s)) as Hrest.
      { apply runs_separator; [done|]. apply (IH []). constructor. }
      destruct run as [|r run]; [done|].
      apply runs_token; [done|done| |done].
      intros c' [= <-]. done.
Qed.

Lemma alpha_runs_iff s ts : alpha_runs s ts ↔ ts = findall_alpha s.
Proof.
  split; [apply alpha_runs_findall_alpha|].
  intros ->. apply (findall_alpha_from_runs [] s). constructor.
Qed.

(** Every run is a non-empty stretch of the string, within the class. *)
Lemma alpha_runs_token s ts t :
  alpha_runs s ts → t ∈ ts →
  t ≠ [] ∧ Forall (λ c, is_alpha c = true) t ∧ ∃ a b, s = a ++ t ++ b.
Proof.
  induction 1 as [|c s ts Hc _ IH|t' s ts Ht Hal Hs _ IH]; intros Hin.
  - by apply elem_of_nil in Hin.
  - destruct (IH Hin) as (? & ? & a & b & ->).
    split_and!; [done|done|]. by exists (c :: a), b.
  - apply elem_of_cons in Hin as [->|Hin].
    + split_and!; [done|done|]. by exists [], s.
    + destruct (IH Hin) as (? & ? & a & b & ->).
      split_and!; [done|done|]. exists (t' ++ a), b. by rewrite <- app_assoc.
Qed.

Lemma tokenize_runs text : alpha_runs (lower text) (_tokenize text).
Proof. by apply alpha_runs_iff. Qed.

Lemma tokenize_token text t :
  t ∈ _tokenize text →
  t ≠ [] ∧ Forall (λ c, is_alpha c = true) t ∧ ∃ a b, lower text = a ++ t ++ b.
Proof. apply alpha_runs_token, tokenize_runs. Qed.

(* =================================================================== *)
(** * Substrings *)

Lemma startswith_spec s p : startswith s p = true ↔ ∃ b, s = p ++ b.
Proof.
  revert s. induction p as [|c p IH]; intros [|d s]; simpl.
  - split; [by exists []|done].
  - split; [by exists (d :: s)|done].
  - split; [done|]. by intros [b ?].
  - rewrite andb_true_iff, N.eqb_eq, IH. split.
    + intros [-> [b ->]]. by exists b.
    + intros [b [= -> ->]]. split; [done|]. by exists b.
Qed.

Lemma contains_spec hay needle :
  contains hay needle = true ↔ ∃ a b, hay = a ++ needle ++ b.
Proof.
  induction hay as [|c hay IH]; cbn [contains].
  - rewrite startswith_spec. split.
    + intros [b Hb]. by exists [], b.
    + intros (a & b & Hab). symmetry in Hab.
      apply app_eq_nil in Hab as [-> Hab]. by exists b.
  - rewrite orb_true_iff, startswith_spec, IH. split.
    + intros [[b Hb]|(a & b & ->)]; [by exists [], b|by exists (c :: a), b].
    + intros (a & b & Hab). destruct a as [|c' a]; simpl in Hab.
      * left. by exists b.
      * right. injection Hab as -> ->. by exists a, b.
Qed.

(* =================================================================== *)
(** * The set of keywords *)

Lemma elem_of_foldl_add_if (f : list N → bool) (init : gset (list N)) l x :
  x ∈ foldl (λ kws kw, if f kw then kws ∪ {[ kw ]} else kws) init l
  ↔ x ∈ init ∨ (x ∈ l ∧ f x = true).
Proof.
  revert init. induction l as [|k l IH]; intros init; simpl.
  - set_solver.
  - rewrite IH. destruct (f k) eqn:Hk; [set_solver|].
    split; [set_solver|]. intros [?|[[->|?]%elem_of_cons ?]]; [auto|congruence|auto].
Qed.

Lemma elem_of_foldl_add_fst (init : gset (list N)) (l : list (list N * nat)) x :
  x ∈ foldl (λ kws item, kws ∪ {[ item.1 ]}) init l ↔ x ∈ init ∨ x ∈ l.*1.
Proof.
  revert init. induction l as [|k l IH]; intros init; simpl.
  - set_solver.
  - rewrite IH. set_solver.
Qed.

Global Instance str_le_total : Total str_le.
Proof.
  intros a b. unfold str_le.
  destruct (trichotomy lexico a b) as [?|[->|?]].
  - left. intros ?. by eapply (irreflexivity lexico a); etrans.
  - left. apply irreflexivity, _.
  - right. intros ?. by eapply (irreflexivity lexico a); etrans.
Qed.

Global Instance str_le_trans : Transitive str_le.
Proof.
  intros a b c Hab Hbc Hca. unfold str_le in *.
  destruct (trichotomy lexico a b) as [?|[->|?]]; [|done|done].
  apply Hbc. by etrans.
Qed.

Lemma elem_of_sorted (S : gset (list N)) x : x ∈ sorted S ↔ x ∈ S.
Proof. unfold sorted. by rewrite merge_sort_Permutation, elem_of_elements. Qed.

Lemma NoDup_sorted (S : gset (list N)) : NoDup (sorted S).
Proof. unfold sorted. rewrite merge_sort_Permutation. apply NoDup_elements. Qed.

(** The result of [sorted] ascends strictly: every element is below
    all that follow it. *)
Lemma sorted_ascending (S : gset (list N)) : StronglySorted lexico (sorted S).
Proof.
  pose proof (NoDup_sorted S) as Hnd.
  assert (StronglySorted str_le (sorted S)) as Hs.
  { apply StronglySorted_merge_sort; apply _. }
  induction Hs as [|x l Hs IH Hall]; [constructor|].
  apply NoDup_cons in Hnd as [Hx Hnd]. constructor; [by apply IH|].
  rewrite Forall_forall in *. intros y Hy.
  destruct (trichotomy lexico x y) as [?|[->|?]]; [done|done|].
  by destruct (Hall y Hy).
Qed.

Lemma elem_of_extract_keywords text top_n k :
  k ∈ extract_keywords text top_n
  ↔ k ∈ skill_matches text ∨ k ∈ frequent_tokens text top_n.
Proof.
  unfold extract_keywords. rewrite elem_of_sorted, elem_of_foldl_add_fst.
  rewrite (elem_of_foldl_add_if (λ kw, contains (lower text) (lower kw))).
  unfold skill_matches, frequent_tokens, counted_tokens.
  rewrite list_elem_of_filter.
  pose proof (not_elem_of_empty (C:=gset (list N)) k). tauto.
Qed.

(* =================================================================== *)
(** * Counter and most_common *)

Lemma first_seen_snoc l k :
  first_seen (l ++ [k]) = if decide (k ∈ l) then first_seen l else first_seen l ++ [k].
Proof.
  unfold first_seen. rewrite reverse_snoc. simpl.
  destruct (decide_rel elem_of k (reverse l)) as [Hk|Hk];
    rewrite elem_of_reverse in Hk; destruct (decide (k ∈ l)); try done.
  by rewrite reverse_cons.
Qed.

Lemma elem_of_first_seen l x : x ∈ first_seen l ↔ x ∈ l.
Proof. unfold first_seen. by rewrite elem_of_reverse, elem_of_remove_dups, elem_of_reverse. Qed.

Lemma NoDup_first_seen l : NoDup (first_seen l).
Proof. unfold first_seen. rewrite reverse_Permutation. apply NoDup_remove_dups. Qed.

Lemma occurrences_snoc x l k :
  occurrences x (l ++ [k]) =
  if decide (x = k) then S (occurrences x l) else occurrences x l.
Proof.
  unfold occurrences. rewrite filter_app, length_app.
  rewrite filter_cons, filter_nil. destruct (decide (x = k)); simpl; lia.
Qed.

Lemma occurrences_absent x l : x ∉ l → occurrences x l = 0.
Proof.
  unfold occurrences. induction l as [|y l IH]; [done|]. intros Hx.
  rewrite filter_cons, decide_False by set_solver. apply IH. set_solver.
Qed.

Lemma count_elem_items k (c : list N → nat) keys :
  NoDup keys →
  count_elem k ((λ x, (x, c x)) <$> keys) =
  if decide (k ∈ keys)
  then (λ x, (x, if decide (x = k) then S (c x) else c x)) <$> keys
  else ((λ x, (x, c x)) <$> keys) ++ [(k, 1)].
Proof.
  induction 1 as [|x keys Hx Hnd IH]; csimpl; [done|].
  destruct (decide (x = k)) as [->|Hxk].
  - rewrite decide_True by set_solver. f_equal.
    apply list_fmap_ext. intros i y Hy. apply list_elem_of_lookup_2 in Hy.
    rewrite decide_False; [done|]. by intros ->.
  - rewrite IH. destruct (decide (k ∈ keys)).
    + rewrite decide_True by set_solver. done.
    + rewrite decide_False by set_solver. done.
Qed.

(** A [Counter] lists the distinct elements in first-seen order, each
    with the number of its occurrences. *)
Lemma Counter_items l :
  Counter l = (λ x, (x, occurrences x l)) <$> first_seen l.
Proof.
  unfold Counter. induction l as [|k l IH] using rev_ind; [done|].
  rewrite foldl_snoc, IH, count_elem_items by apply NoDup_first_seen.
  rewrite first_seen_snoc.
  destruct (decide (k ∈ first_seen l)) as [Hk|Hk];
    rewrite elem_of_first_seen in Hk.
  - rewrite decide_True by done. apply list_fmap_ext.
    intros i x _. by rewrite occurrences_snoc.
  - rewrite decide_False by done. rewrite fmap_app. simpl. f_equal.
    + apply list_fmap_ext. intros i x Hx. apply list_elem_of_lookup_2 in Hx.
      rewrite elem_of_first_seen in Hx.
      rewrite occurrences_snoc, decide_False; [done|]. by intros ->.
    + rewrite occurrences_snoc, decide_True by done.
      by rewrite occurrences_absent.
Qed.

Lemma first_index_lt x l : x ∈ l → first_index x l < length l.
Proof.
  induction l as [|y l IH]; simpl; [by intros ?%elem_of_nil|].
  intros [->|Hx]%elem_of_cons.
  - rewrite decide_True by done. lia.
  - destruct (decide (y = x)); [lia|]. specialize (IH Hx). lia.
Qed.

Lemma first_index_app_l x l l' :
  x ∈ l → first_index x (l ++ l') = first_index x l.
Proof.
  induction l as [|y l IH]; simpl; [by intros ?%elem_of_nil|].
  intros [->|Hx]%elem_of_cons.
  - by case_decide.
  - destruct (decide (y = x)); [done|]. by rewrite IH.
Qed.

Lemma first_index_fresh x l : x ∉ l → first_index x (l ++ [x]) = length l.
Proof.
  induction l as [|y l IH]; simpl; intros Hx.
  - by rewrite decide_True.
  - rewrite decide_False by set_solver. rewrite IH by set_solver. done.
Qed.

Lemma first_seen_order l :
  StronglySorted (λ a b, first_index a l < first_index b l) (first_seen l).
Proof.
  induction l as [|k l IH] using rev_ind; [constructor|].
  assert (StronglySorted
            (λ a b, first_index a (l ++ [k]) < first_index b (l ++ [k]))
            (first_seen l)) as IH'.
  { pose proof (λ x, proj1 (elem_of_first_seen l x)) as Hin.
    induction IH as [|x keys _ IHk Hall]; constructor.
    - apply IHk. intros y Hy. apply Hin. set_solver.
    - rewrite Forall_forall in *. intros y Hy.
      rewrite !first_index_app_l by (apply Hin; set_solver). by apply Hall. }
  rewrite first_seen_snoc. destruct (decide (k ∈ l)) as [Hk|Hk]; [done|].
  apply StronglySorted_app_2; [|done|repeat constructor].
  intros a b Ha ->%list_elem_of_singleton. rewrite elem_of_first_seen in Ha.
  rewrite first_index_app_l, first_index_fresh by done. by apply first_index_lt.
Qed.

Lemma insert_by_count_Permutation x l : insert_by_count x l ≡ₚ x :: l.
Proof.
  induction l as [|y l IH]; simpl; [done|].
  destruct (decide (x.2 < y.2)); [|done]. rewrite IH. apply Permutation_swap.
Qed.

Lemma sort_by_count_Permutation l : sort_by_count l ≡ₚ l.
Proof.
  induction l as [|x l IH]; simpl; [done|].
  by rewrite insert_by_count_Permutation, IH.
Qed.

Lemma insert_by_count_sorted toks x l :
  StronglySorted (ranks_before toks) l →
  Forall (λ y, first_index x.1 toks < first_index y.1 toks) l →
  StronglySorted (ranks_before toks) (insert_by_count x l).
Proof.
  induction 1 as [|y l Hs IH Hall]; intros Hx; simpl.
  - repeat constructor.
  - apply Forall_cons in Hx as [Hxy Hx].
    destruct (decide (x.2 < y.2)) as [Hlt|Hge].
    + constructor; [by apply IH|].
      rewrite insert_by_count_Permutation. constructor; [by left|done].
    + constructor; [by constructor|].
      assert (ranks_before toks x y) as Hy.
      { unfold ranks_before. destruct (decide (x.2 = y.2)); [right|left]; lia. }
      constructor; [done|].
      rewrite Forall_forall in *. intros z Hz.
      specialize (Hall z Hz). specialize (Hx z Hz).
      unfold ranks_before in *. lia.
Qed.

Lemma sort_by_count_sorted toks items :
  StronglySorted (λ a b, first_index a.1 toks < first_index b.1 toks) items →
  StronglySorted (ranks_before toks) (sort_by_count items).
Proof.
  induction 1 as [|x items _ IH Hall]; simpl; [constructor|].
  apply insert_by_count_sorted; [done|].
  by rewrite sort_by_count_Permutation.
Qed.

Lemma most_common_Counter_sorted toks :
  StronglySorted (ranks_before toks) (sort_by_count (Counter toks)).
Proof.
  apply sort_by_count_sorted. rewrite Counter_items.
  apply (StronglySorted_fmap _ (λ a b, first_index a toks < first_index b toks));
    [done|]. apply first_seen_order.
Qed.

(* =================================================================== *)
(** * extract_keywords *)

Lemma elem_of_sort_by_count_Counter toks k v :
  (k, v) ∈ sort_by_count (Counter toks) ↔ k ∈ toks ∧ v = occurrences k toks.
Proof.
  rewrite sort_by_count_Permutation, Counter_items, list_elem_of_fmap.
  setoid_rewrite elem_of_first_seen. naive_solver.
Qed.

Lemma elem_of_most_common_Counter toks n k v :
  (k, v) ∈ most_common (Counter toks) n → k ∈ toks ∧ v = occurrences k toks.
Proof.
  unfold most_common. intros Hin.
  apply elem_of_sort_by_count_Counter.
  rewrite <- (take_drop (Z.to_nat n) (sort_by_count (Counter toks))).
  apply elem_of_app. by left.
Qed.

Lemma frequent_tokens_counted text top_n w :
  w ∈ frequent_tokens text top_n → w ∈ counted_tokens text.
Proof.
  unfold frequent_tokens. intros ([k v] & -> & Hin)%list_elem_of_fmap.
  by apply elem_of_most_common_Counter in Hin as [? _].
Qed.

Lemma frequent_tokens_length text top_n :
  length (frequent_tokens text top_n)
  = Z.to_nat top_n `min` length (first_seen (counted_tokens text)).
Proof.
  unfold frequent_tokens, most_common.
  rewrite length_fmap, length_take, sort_by_count_Permutation.
  by rewrite Counter_items, length_fmap.
Qed.

Lemma skill_keywords_lowercase kw : kw ∈ SKILL_KEYWORDS → lower kw = kw.
Proof.
  unfold SKILL_KEYWORDS. rewrite list_elem_of_fmap. intros (s & -> & Hs).
  repeat (apply elem_of_cons in Hs as [->|Hs]; [reflexivity|]).
  by apply elem_of_nil in Hs.
Qed.

(** C6: an entry of the skill dictionary is in the result of
    [extract_keywords], in its own spelling, exactly when its lowercase
    form is a substring of the lowercased text, for every [top_n]. *)
Theorem skill_keyword_iff_substring text top_n kw :
  kw ∈ SKILL_KEYWORDS →
  kw ∈ extract_keywords text top_n ↔ ∃ a b, lower text = a ++ lower kw ++ b.
Proof.
  intros Hkw. rewrite elem_of_extract_keywords.
  unfold skill_matches. rewrite list_elem_of_filter, contains_spec. split.
  - intros [[? _]|Hfreq]; [done|].
    apply frequent_tokens_counted in Hfreq.
    unfold counted_tokens in Hfreq. apply list_elem_of_filter in Hfreq as [_ Htok].
    apply tokenize_token in Htok as (_ & _ & a & b & ->).
    exists a, b. by rewrite skill_keywords_lowercase.
  - intros ?. by left.
Qed.

(** In a list sorted by a strict order, an element stands at the
    position given by the number of elements before it in the order. *)
Lemma sorted_position {A} (R : A → A → Prop) `{!∀ a b, Decision (R a b)}
    (l : list A) i x :
  (∀ a b, R a b → ¬ R b a) →
  StronglySorted R l → l !! i = Some x →
  length (filter (λ y, R y x) l) = i.
Proof.
  intros Hasym Hsorted. revert i.
  induction Hsorted as [|a l _ IH Hall]; intros i Hi; [done|].
  rewrite filter_cons. destruct i as [|i]; simpl in Hi.
  - injection Hi as ->.
    rewrite decide_False by (intros HR; exact (Hasym x x HR HR)).
    clear IH. induction l as [|b l IHl]; [done|].
    apply Forall_cons in Hall as [Hb Hall].
    rewrite filter_cons, decide_False by (by apply Hasym). by apply IHl.
  - rewrite Forall_forall in Hall.
    rewrite decide_True by (apply Hall; by eapply list_elem_of_lookup_2).
    simpl. f_equal. by apply IH.
Qed.

Lemma ranks_before_asymmetric toks a b :
  ranks_before toks a b → ¬ ranks_before toks b a.
Proof. unfold ranks_before. lia. Qed.

Lemma length_filter_items (P : list N * nat → Prop) (Q : list N → Prop)
    `{!∀ x, Decision (P x)} `{!∀ x, Decision (Q x)}
    (f : list N → list N * nat) (l : list (list N)) :
  (∀ x, P (f x) ↔ Q x) →
  length (filter P (f <$> l)) = length (filter Q l).
Proof.
  intros HPQ. induction l as [|x l IH]; [done|]. csimpl.
  rewrite !filter_cons.
  destruct (decide (P (f x))) as [HP|HP], (decide (Q x)) as [HQ|HQ]; simpl.
  - by rewrite IH.
  - by apply HPQ in HP.
  - by apply HPQ in HQ.
  - done.
Qed.

(** The position of a token in [most_common] is the number of tokens
    that outrank it. *)
Lemma most_common_position toks i t c :
  sort_by_count (Counter toks) !! i = Some (t, c) →
  length (outranking toks t) = i.
Proof.
  intros Hi.
  assert (c = occurrences t toks) as ->.
  { apply list_elem_of_lookup_2 in Hi.
    by apply elem_of_sort_by_count_Counter in Hi as [_ ?]. }
  assert (∀ a b, Decision (ranks_before toks a b)) as Hdec
    by (intros a b; unfold ranks_before; apply _).
  rewrite <- (sorted_position (ranks_before toks) _ i (t, occurrences t toks)
                (ranks_before_asymmetric toks) (most_common_Counter_sorted toks) Hi).
  rewrite (Permutation_length
             (filter_Permutation _ _ _ (sort_by_count_Permutation (Counter toks)))).
  rewrite Counter_items. unfold outranking. symmetry.
  apply length_filter_items. intros u. unfold ranks_before. simpl. lia.
Qed.

(** The words of [most_common(top_n)]: the counted tokens that fewer
    than [top_n] tokens outrank. *)
Lemma elem_of_frequent_tokens text top_n t :
  t ∈ frequent_tokens text top_n
  ↔ t ∈ counted_tokens text
    ∧ (Z.of_nat (length (outranking (counted_tokens text) t)) < top_n)%Z.
Proof.
  unfold frequent_tokens, most_common.
  set (toks := counted_tokens text). split.
  - intros ([t' c] & -> & Hin)%list_elem_of_fmap. simpl.
    apply elem_of_take in Hin as (i & Hi & Hlt).
    rewrite (most_common_position toks i t' c Hi). split; [|lia].
    apply list_elem_of_lookup_2 in Hi.
    by apply elem_of_sort_by_count_Counter in Hi as [? _].
  - intros [Ht Hrank].
    assert ((t, occurrences t toks) ∈ sort_by_count (Counter toks)) as Hin
      by by apply elem_of_sort_by_count_Counter.
    apply list_elem_of_lookup_1 in Hin as [i Hi].
    rewrite (most_common_position toks i t _ Hi) in Hrank.
    apply list_elem_of_fmap. exists (t, occurrences t toks). split; [done|].
    apply elem_of_take. exists i. split; [done|lia].
Qed.

(** C7: step 2 of [extract_keywords] selects the [top_n] most frequent
    counted tokens, a tie going to the token seen first. A word is in the
    result exactly when it is a dictionary entry found in step 1, or a
    counted token that fewer than [top_n] distinct tokens outrank, where
    a token outranks another when it occurs more often, or as often and
    first earlier in the token sequence. So the two selected out of
    [aaa aaa bbb ccc] are [aaa] and [bbb], never [ccc]. *)
Theorem most_common_ties_first_seen text top_n t :
  t ∈ extract_keywords text top_n
  ↔ t ∈ skill_matches text
    ∨ (t ∈ counted_tokens text
       ∧ (Z.of_nat (length (outranking (counted_tokens text) t)) < top_n)%Z).
Proof.
  rewrite elem_of_extract_keywords.
  by rewrite elem_of_frequent_tokens.
Qed.

(** C8: the list returned by [extract_keywords] has no duplicate, ascends
    strictly in the lexicographic order of strings, and is the sorted
    union of the dictionary entries found in step 1 and the frequent
    tokens of step 2. *)
Theorem extract_keywords_sorted_union text top_n :
  NoDup (extract_keywords text top_n)
  ∧ StronglySorted lexico (extract_keywords text top_n)
  ∧ (∀ k, k ∈ extract_keywords text top_n
          ↔ k ∈ skill_matches text ∨ k ∈ frequent_tokens text top_n)
  ∧ extract_keywords text top_n
    = sorted (list_to_set (skill_matches text)
              ∪ list_to_set (frequent_tokens text top_n)).
Proof.
  split_and!.
  - apply NoDup_sorted.
  - apply sorted_ascending.
  - apply elem_of_extract_keywords.
  - unfold extract_keywords at 1. f_equal. apply set_eq. intros k.
    rewrite <- elem_of_sorted. fold (extract_keywords text top_n).
    rewrite elem_of_extract_keywords. set_solver.
Qed.

(* =================================================================== *)
(** * Rounding *)

Section Rounding.
Local Open Scope Z_scope.

Lemma round_half_even_spec a b :
  0 < b →
  2 * a - b <= 2 * (b * round_half_even a b) <= 2 * a + b
  ∧ (2 * (b * round_half_even a b) = 2 * a + b
     ∨ 2 * (b * round_half_even a b) = 2 * a - b →
     Z.even (round_half_even a b) = true).
Proof.
  intros Hb. unfold round_half_even.
  pose proof (Z.div_mod a b ltac:(lia)) as Hdiv.
  pose proof (Z.mod_pos_bound a b Hb) as Hmod.
  set (q := a / b) in *. set (r := a mod b) in *.
  destruct (Z.ltb_spec (2 * r) b); [split; [lia|intros; lia]|].
  destruct (Z.ltb_spec b (2 * r)); [split; [lia|intros; lia]|].
  destruct (Z.even q) eqn:Hq; [split; [lia|done]|].
  split; [lia|]. intros _.
  rewrite Z.even_add, Hq. done.
Qed.

Lemma round_half_even_le_int a b n :
  0 < b → a <= n * b → round_half_even a b <= n.
Proof.
  intros Hb Ha. destruct (round_half_even_spec a b Hb) as [[_ Hup] _].
  destruct (Z.le_gt_cases (round_half_even a b) n) as [|Hgt]; [done|].
  assert (b * (n + 1) <= b * round_half_even a b)
    by (apply Z.mul_le_mono_nonneg_l; lia).
  lia.
Qed.

Lemma round_half_even_ge_int a b n :
  0 < b → n * b <= a → n <= round_half_even a b.
Proof.
  intros Hb Ha. destruct (round_half_even_spec a b Hb) as [[Hlo _] _].
  destruct (Z.le_gt_cases n (round_half_even a b)) as [|Hgt]; [done|].
  assert (b * (round_half_even a b + 1) <= b * n)
    by (apply Z.mul_le_mono_nonneg_l; lia).
  lia.
Qed.

Lemma round_half_even_exact b n : 0 < b → round_half_even (n * b) b = n.
Proof.
  intros Hb. apply Z.le_antisymm.
  - by apply round_half_even_le_int.
  - by apply round_half_even_ge_int.
Qed.

Lemma round_half_even_mono a1 b1 a2 b2 :
  0 < b1 → 0 < b2 → a1 * b2 <= a2 * b1 →
  round_half_even a1 b1 <= round_half_even a2 b2.
Proof.
  intros Hb1 Hb2 Hle.
  destruct (round_half_even_spec a1 b1 Hb1) as [[_ Hup] Htie1].
  destruct (round_half_even_spec a2 b2 Hb2) as [[Hlo _] Htie2].
  set (n1 := round_half_even a1 b1) in *.
  set (n2 := round_half_even a2 b2) in *.
  destruct (Z.le_gt_cases n1 n2) as [|Hgt]; [done|exfalso].
  assert (2 * (b1 * n1) * b2 <= (2 * a1 + b1) * b2) as H1
    by (apply Z.mul_le_mono_nonneg_r; lia).
  assert ((2 * a2 - b2) * b1 <= 2 * (b2 * n2) * b1) as H2
    by (apply Z.mul_le_mono_nonneg_r; lia).
  assert (0 < b1 * b2) as HB by lia.
  assert ((b1 * b2) * (n2 + 1) <= (b1 * b2) * n1) as H3
    by (apply Z.mul_le_mono_nonneg_l; lia).
  assert ((b1 * b2) * n1 = (b1 * b2) * (n2 + 1)) as Hn' by lia.
  assert (n1 = n2 + 1) as Hn by (apply (Z.mul_reg_l _ _ (b1 * b2)); lia).
  assert ((2 * (b1 * n1)) * b2 = (2 * a1 + b1) * b2) as E1' by lia.
  assert ((2 * (b2 * n2)) * b1 = (2 * a2 - b2) * b1) as E2' by lia.
  assert (2 * (b1 * n1) = 2 * a1 + b1) as E1
    by (apply (Z.mul_reg_r _ _ b2); lia).
  assert (2 * (b2 * n2) = 2 * a2 - b2) as E2
    by (apply (Z.mul_reg_r _ _ b1); lia).
  specialize (Htie1 (or_introl E1)). specialize (Htie2 (or_intror E2)).
  rewrite Hn, Z.even_add, Htie2 in Htie1. done.
Qed.

Lemma round_half_even_nonneg a b : 0 <= a → 0 < b → 0 <= round_half_even a b.
Proof. intros. apply round_half_even_ge_int; lia. Qed.

Lemma float_units_round_binary64 p q :
  float_units (round_binary64 p q) = round_units p q.
Proof.
  unfold round_binary64, round_units.
  set (e := Z.max (Z.log2 (p * 2 ^ 1074 / q) - 52) 0).
  assert (0 <= e) as He by lia.
  set (m := round_half_even (p * 2 ^ 1074) (q * 2 ^ e)).
  destruct (Z.eqb_spec m 0) as [->|_]; [done|].
  destruct (Z.eqb_spec m (2 ^ 53)) as [->|_]; unfold float_units; cbn [Fnum Fexp].
  - replace (e + 1 - 1074 + 1074) with (Z.succ e) by lia.
    rewrite Z.pow_succ_r by done. change (2 ^ 53) with (2 ^ 52 * 2). lia.
  - by replace (e - 1074 + 1074) with e by lia.
Qed.

Lemma div_le_cross a1 b1 a2 b2 :
  0 < b1 → 0 < b2 → a1 * b2 <= a2 * b1 → a1 / b1 <= a2 / b2.
Proof.
  intros Hb1 Hb2 Hle. apply Z.div_le_lower_bound; [done|].
  pose proof (Z.mul_div_le a1 b1 Hb1) as Hq.
  assert (b1 * (a1 / b1) * b2 <= a1 * b2) as H1
    by (apply Z.mul_le_mono_nonneg_r; lia).
  apply (Z.mul_le_mono_pos_l _ _ b1); lia.
Qed.

(** The exponent of the spacing, and what it says of the ratio. *)
Lemma spacing_upper u q e :
  0 <= u → 0 < q → e = Z.max (Z.log2 (u / q) - 52) 0 →
  u <= 2 ^ 53 * (q * 2 ^ e).
Proof.
  intros Hu Hq He.
  assert (0 <= u / q) as Hquot by (apply Z.div_pos; lia).
  assert (u / q < 2 ^ (e + 53)) as Hlt.
  { destruct (Z.eq_dec (u / q) 0) as [->|Hne].
    - apply Z.pow_pos_nonneg; lia.
    - pose proof (Z.log2_spec (u / q) ltac:(lia)) as [_ Hlog].
      eapply Z.lt_le_trans; [exact Hlog|].
      apply Z.pow_le_mono_r; lia. }
  rewrite Z.pow_add_r in Hlt by lia.
  pose proof (Z.div_mod u q ltac:(lia)) as Hdiv.
  pose proof (Z.mod_pos_bound u q Hq) as Hmod.
  assert (q * (u / q + 1) <= q * (2 ^ e * 2 ^ 53)) as H1
    by (apply Z.mul_le_mono_nonneg_l; lia).
  lia.
Qed.

Lemma spacing_lower u q e :
  0 < q → e = Z.max (Z.log2 (u / q) - 52) 0 → 0 < e →
  2 ^ 52 * (q * 2 ^ e) <= u.
Proof.
  intros Hq He Hpos.
  assert (Z.log2 (u / q) = e + 52) as Hlog by lia.
  assert (0 < u / q) as Hquot.
  { destruct (Z.le_gt_cases (u / q) 0) as [Hle|]; [|lia].
    apply Z.log2_nonpos in Hle. lia. }
  pose proof (Z.log2_spec (u / q) Hquot) as [Hlo _].
  rewrite Hlog, Z.pow_add_r in Hlo by lia.
  pose proof (Z.mul_div_le u q Hq) as Hq'.
  assert (q * (2 ^ e * 2 ^ 52) <= q * (u / q)) as H1
    by (apply Z.mul_le_mono_nonneg_l; lia).
  lia.
Qed.

Lemma round_units_mono p1 q1 p2 q2 :
  0 <= p1 → 0 < q1 → 0 < q2 → p1 * q2 <= p2 * q1 →
  round_units p1 q1 <= round_units p2 q2.
Proof.
  intros Hp1 Hq1 Hq2 Hle. unfold round_units.
  assert (0 < 2 ^ 1074) as HW by (apply Z.pow_pos_nonneg; lia).
  set (W := 2 ^ 1074) in *.
  set (u1 := p1 * W). set (u2 := p2 * W).
  assert (0 <= u1) as Hu1 by (subst u1; lia).
  assert (u1 * q2 <= u2 * q1) as Hule.
  { subst u1 u2. assert (p1 * q2 * W <= p2 * q1 * W)
      by (apply Z.mul_le_mono_nonneg_r; lia). lia. }
  assert (0 <= u2) as Hu2.
  { assert (0 <= u2 * q1) by lia. nia. }
  pose proof (div_le_cross _ _ _ _ Hq1 Hq2 Hule) as Hquot.
  pose proof (Z.log2_le_mono _ _ Hquot) as Hlog.
  remember (Z.max (Z.log2 (u1 / q1) - 52) 0) as e1 eqn:He1.
  remember (Z.max (Z.log2 (u2 / q2) - 52) 0) as e2 eqn:He2.
  assert (0 <= e1 <= e2) as [He1pos He12] by lia.
  assert (0 < 2 ^ e1) as Hpow1 by (apply Z.pow_pos_nonneg; lia).
  assert (0 < 2 ^ e2) as Hpow2 by (apply Z.pow_pos_nonneg; lia).
  destruct (Z.eq_dec e1 e2) as [<-|Hne].
  - apply Z.mul_le_mono_nonneg_r; [lia|].
    apply round_half_even_mono; [lia|lia|].
    assert (u1 * q2 * 2 ^ e1 <= u2 * q1 * 2 ^ e1)
      by (apply Z.mul_le_mono_nonneg_r; lia). lia.
  - assert (round_half_even u1 (q1 * 2 ^ e1) <= 2 ^ 53) as Hm1.
    { apply round_half_even_le_int; [lia|]. by apply spacing_upper. }
    assert (2 ^ 52 <= round_half_even u2 (q2 * 2 ^ e2)) as Hm2.
    { apply round_half_even_ge_int; [lia|]. apply spacing_lower; lia. }
    assert (2 ^ (e1 + 1) <= 2 ^ e2) as Hpow by (apply Z.pow_le_mono_r; lia).
    rewrite Z.pow_add_r in Hpow by lia. change (2 ^ 1) with 2 in Hpow.
    assert (round_half_even u1 (q1 * 2 ^ e1) * 2 ^ e1 <= 2 ^ 53 * 2 ^ e1) as H1
      by (apply Z.mul_le_mono_nonneg_r; lia).
    assert (2 ^ 52 * 2 ^ e2 <= round_half_even u2 (q2 * 2 ^ e2) * 2 ^ e2) as H2
      by (apply Z.mul_le_mono_nonneg_r; lia).
    assert (2 ^ 52 * (2 ^ e1 * 2) <= 2 ^ 52 * 2 ^ e2) as H3
      by (apply Z.mul_le_mono_nonneg_l; lia).
    change (2 ^ 53) with (2 ^ 52 * 2) in H1. lia.
Qed.

Lemma round_units_nonneg p q : 0 <= p → 0 < q → 0 <= round_units p q.
Proof.
  intros Hp Hq. unfold round_units.
  set (e := Z.max (Z.log2 (p * 2 ^ 1074 / q) - 52) 0).
  assert (0 < 2 ^ e) by (apply Z.pow_pos_nonneg; lia).
  assert (0 <= 2 ^ 1074) by (apply Z.pow_nonneg; lia).
  apply Z.mul_nonneg_nonneg; [|lia].
  apply round_half_even_nonneg; lia.
Qed.

Lemma round_binary64_mono p1 q1 p2 q2 :
  0 <= p1 → 0 < q1 → 0 < q2 → p1 * q2 <= p2 * q1 →
  float_le (round_binary64 p1 q1) (round_binary64 p2 q2).
Proof.
  intros. unfold float_le. rewrite !float_units_round_binary64.
  by apply round_units_mono.
Qed.

Lemma float_mul_int_mono x y k :
  0 <= float_units x → 0 <= k → float_le x y →
  float_le (float_mul_int x k) (float_mul_int y k).
Proof.
  unfold float_le, float_mul_int. intros Hx Hk Hxy.
  assert (0 < 2 ^ 1074) as HW by (apply Z.pow_pos_nonneg; lia).
  apply round_binary64_mono; [lia|done|done|].
  apply Z.mul_le_mono_nonneg_r; [lia|].
  apply Z.mul_le_mono_nonneg_r; lia.
Qed.

Lemma py_round_mono x y ndigits :
  0 <= float_units x → float_le x y →
  float_le (py_round x ndigits) (py_round y ndigits).
Proof.
  unfold float_le, py_round. intros Hx Hxy.
  assert (0 < 2 ^ 1074) as HW by (apply Z.pow_pos_nonneg; lia).
  assert (0 < 10 ^ Z.of_nat ndigits) as Hs by (apply Z.pow_pos_nonneg; lia).
  apply round_binary64_mono; [|done|done|].
  - apply round_half_even_nonneg; [|done]. lia.
  - apply Z.mul_le_mono_nonneg_r; [lia|].
    apply round_half_even_mono; [done|done|].
    apply Z.mul_le_mono_nonneg_r; [lia|].
    apply Z.mul_le_mono_nonneg_r; lia.
Qed.

Lemma score_of_counts_mono k1 n1 k2 n2 :
  (0 < n1)%nat → (0 < n2)%nat → (k1 * n2 <= k2 * n1)%nat →
  float_le (score_of_counts k1 n1) (score_of_counts k2 n2).
Proof.
  intros Hn1 Hn2 Hle. unfold score_of_counts.
  assert (float_le (round_binary64 (Z.of_nat k1) (Z.of_nat n1))
                   (round_binary64 (Z.of_nat k2) (Z.of_nat n2))) as Hdiv
    by (apply round_binary64_mono; lia).
  assert (∀ k n, (0 < n)%nat →
            0 <= float_units (round_binary64 (Z.of_nat k) (Z.of_nat n))) as Hpos.
  { intros k n Hn. rewrite float_units_round_binary64.
    apply round_units_nonneg; lia. }
  apply py_round_mono.
  - unfold float_mul_int. rewrite float_units_round_binary64.
    apply round_units_nonneg; [|apply Z.pow_pos_nonneg; lia].
    specialize (Hpos k1 n1 Hn1). lia.
  - apply float_mul_int_mono; [by apply Hpos|lia|done].
Qed.

(** A quotient of equal lengths is [1.0], and the score made of it is
    [100.0]. *)
Lemma round_binary64_same n : 0 < n → round_binary64 n n = Float (2 ^ 52) (-52).
Proof.
  intros Hn. unfold round_binary64.
  rewrite (Z.mul_comm n), Z.div_mul by lia.
  rewrite Z.log2_pow2 by lia.
  change (Z.max (1074 - 52) 0) with 1022.
  change (2 ^ 1074) with (2 ^ 52 * 2 ^ 1022).
  replace (2 ^ 52 * 2 ^ 1022 * n) with (2 ^ 52 * (n * 2 ^ 1022)) by lia.
  rewrite round_half_even_exact; [done|].
  assert (0 < 2 ^ 1022) by (apply Z.pow_pos_nonneg; lia). lia.
Qed.

Lemma score_of_counts_full n :
  (0 < n)%nat → score_of_counts n n = float_of_Z 100.
Proof.
  intros Hn. unfold score_of_counts.
  rewrite round_binary64_same by lia. by vm_compute.
Qed.

Lemma round_binary64_zero q : 0 < q → round_binary64 0 q = float_zero.
Proof.
  intros Hq. unfold round_binary64.
  rewrite Z.mul_0_l, Z.div_0_l by lia.
  change (Z.max (Z.log2 0 - 52) 0) with 0.
  rewrite <- (Z.mul_0_l (q * 2 ^ 0)) at 1.
  rewrite round_half_even_exact by lia. done.
Qed.

(** No score exceeds [100.0]: the values rounded above stay far from
    the overflow threshold. *)
Lemma score_of_counts_le_hundred k n :
  (0 < n)%nat → (k <= n)%nat → float_le (score_of_counts k n) (float_of_Z 100).
Proof.
  intros Hn Hk. rewrite <- (score_of_counts_full n Hn).
  apply score_of_counts_mono; [done|done|]. by apply Nat.mul_le_mono_r.
Qed.

Lemma score_of_counts_none n : (0 < n)%nat → score_of_counts 0 n = float_zero.
Proof.
  intros Hn. unfold score_of_counts.
  rewrite round_binary64_zero by lia. by vm_compute.
Qed.
End Rounding.

(* =================================================================== *)
(** * compute_ats_score *)

Lemma compute_ats_score_value resume_text job_description :
  compute_ats_score resume_text job_description
  = Some (ats_score resume_text job_description).
Proof.
  unfold compute_ats_score, ats_score. fold (filtered_tokens resume_text).
  fold (filtered_tokens job_description).
  destruct (decide (filtered_tokens job_description = ∅)) as [|Hne];
    [reflexivity|].
  unfold int_truediv, score_of_counts.
  destruct (decide (size (filtered_tokens job_description) = 0)) as [Hsize|_];
    [|reflexivity].
  by apply size_empty_iff, leibniz_equiv in Hsize.
Qed.

Lemma filtered_tokens_nil : filtered_tokens [] = ∅.
Proof.
  unfold filtered_tokens, _filter_tokens.
  change (_tokenize []) with (@nil (list N)).
  apply set_eq. intros t. rewrite elem_of_filter, elem_of_list_to_set. split.
  - intros [_ Hin]. by apply elem_of_nil in Hin.
  - by intros ?%elem_of_empty.
Qed.

Lemma filtered_tokens_size_pos text :
  filtered_tokens text ≠ ∅ → 0 < size (filtered_tokens text).
Proof.
  intros Hne. destruct (size (filtered_tokens text)) eqn:Hsize; [|lia].
  by apply size_empty_iff, leibniz_equiv in Hsize.
Qed.

(** C2: when the filtered token set of the job description is empty,
    [compute_ats_score] returns exactly [0.0], whatever the resume is; the
    empty job description is such a case. *)
Theorem empty_job_description_scores_zero :
  (∀ resume_text job_description,
     filtered_tokens job_description = ∅ →
     compute_ats_score resume_text job_description = Some float_zero)
  ∧ (∀ resume_text, compute_ats_score resume_text [] = Some float_zero).
Proof.
  split.
  - intros resume_text job_description Hempty.
    rewrite compute_ats_score_value. unfold ats_score. by rewrite decide_True.
  - intros resume_text. rewrite compute_ats_score_value. unfold ats_score.
    by rewrite decide_True by apply filtered_tokens_nil.
Qed.

(** C3: a text with at least one token in its filtered set, scored
    against itself, gives exactly [100.0]. *)
Theorem identical_texts_score_hundred j :
  filtered_tokens j ≠ ∅ →
  compute_ats_score j j = Some (float_of_Z 100)
  ∧ float_of_Z 100 = Float 7036874417766400 (-46).
Proof.
  intros Hne. split; [|by vm_compute].
  rewrite compute_ats_score_value. unfold ats_score.
  rewrite decide_False by done. rewrite intersection_idemp_L.
  by rewrite score_of_counts_full by by apply filtered_tokens_size_pos.
Qed.

Lemma ats_score_longer_job resume_text job_description longer :
  filtered_tokens job_description ⊆ filtered_tokens longer →
  (filtered_tokens longer ∖ filtered_tokens job_description)
    ∩ filtered_tokens resume_text = ∅ →
  float_le (ats_score resume_text longer) (ats_score resume_text job_description).
Proof.
  intros Hjob Hnew. unfold ats_score.
  set (J := filtered_tokens job_description) in *.
  set (J' := filtered_tokens longer) in *.
  set (R := filtered_tokens resume_text) in *.
  assert (J' ∩ R = J ∩ R) as ->.
  { apply set_eq. intros t. rewrite !elem_of_intersection. split.
    - intros [HJ' HR]. split; [|done].
      destruct (decide (t ∈ J)); [done|].
      assert (t ∈ (J' ∖ J) ∩ R) as Hin by set_solver.
      rewrite Hnew in Hin. by apply elem_of_empty in Hin.
    - intros [HJ HR]. split; [by apply Hjob|done]. }
  pose proof (subseteq_size _ _ Hjob) as Hsize.
  destruct (decide (J' = ∅)) as [HJ'|HJ'].
  - assert (J = ∅) as -> by (apply set_eq; set_solver).
    by rewrite decide_True.
  - pose proof (filtered_tokens_size_pos _ HJ') as Hpos'.
    destruct (decide (J = ∅)) as [->|HJ].
    + rewrite intersection_empty_l_L, size_empty.
      by rewrite score_of_counts_none.
    + pose proof (filtered_tokens_size_pos _ HJ) as Hpos.
      apply score_of_counts_mono; [done|done|].
      by apply Nat.mul_le_mono_l.
Qed.

Lemma ats_score_longer_resume resume_text longer job_description :
  filtered_tokens resume_text ⊆ filtered_tokens longer →
  float_le (ats_score resume_text job_description) (ats_score longer job_description).
Proof.
  intros Hresume. unfold ats_score.
  destruct (decide (filtered_tokens job_description = ∅)) as [|HJ]; [done|].
  pose proof (filtered_tokens_size_pos _ HJ) as Hpos.
  apply score_of_counts_mono; [done|done|].
  apply Nat.mul_le_mono_r, subseteq_size. set_solver.
Qed.

(** Appending a separator and more text appends the tokens of that text. *)
Lemma findall_alpha_from_app run s sep s' :
  is_alpha sep = false →
  findall_alpha_from run (s ++ sep :: s')
  = findall_alpha_from run s ++ findall_alpha s'.
Proof.
  intros Hsep. revert run. induction s as [|c s IH]; intros run; simpl.
  - by rewrite Hsep.
  - destruct (is_alpha c); [apply IH|]. by rewrite IH, app_assoc.
Qed.

Lemma lower_cp_separator sep : is_separator sep = true → lower_cp sep = [sep].
Proof.
  unfold is_separator, lower_cp, is_alpha.
  intros [Hlt [_ ->]%negb_true_iff%orb_false_iff]%andb_true_iff. by rewrite Hlt.
Qed.

Lemma tokenize_app text sep extra :
  is_separator sep = true →
  _tokenize (text ++ sep :: extra) = _tokenize text ++ _tokenize extra.
Proof.
  intros Hsep. unfold _tokenize, lower.
  rewrite flat_map_app. simpl. rewrite (lower_cp_separator _ Hsep). simpl.
  apply findall_alpha_from_app.
  by apply andb_true_iff in Hsep as [_ ?%negb_true_iff].
Qed.

Lemma filtered_tokens_app text sep extra :
  is_separator sep = true →
  filtered_tokens (text ++ sep :: extra)
  = filtered_tokens text ∪ filtered_tokens extra.
Proof.
  intros Hsep. unfold filtered_tokens, _filter_tokens.
  rewrite tokenize_app by done. apply set_eq. intros t.
  rewrite elem_of_union, !elem_of_filter, !elem_of_list_to_set, elem_of_app.
  clear. tauto.
Qed.

(** C4: the rounded score is monotone. A job description whose filtered
    set grows only by tokens absent from the resume's filtered set scores
    no higher; a resume whose filtered set grows scores no lower (in
    particular when it grows by tokens of the job description that it was
    missing). So it is when the text itself is extended, by a separator
    and further text. *)
Theorem compute_ats_score_monotone :
  (∀ resume_text job_description longer,
     filtered_tokens job_description ⊆ filtered_tokens longer →
     (filtered_tokens longer ∖ filtered_tokens job_description)
       ∩ filtered_tokens resume_text = ∅ →
     score_le (compute_ats_score resume_text longer)
              (compute_ats_score resume_text job_description))
  ∧ (∀ resume_text longer job_description,
       filtered_tokens resume_text ⊆ filtered_tokens longer →
       score_le (compute_ats_score resume_text job_description)
                (compute_ats_score longer job_description))
  ∧ (∀ resume_text job_description sep extra,
       is_separator sep = true →
       filtered_tokens extra ∩ filtered_tokens resume_text = ∅ →
       score_le (compute_ats_score resume_text (job_description ++ sep :: extra))
                (compute_ats_score resume_text job_description))
  ∧ (∀ resume_text job_description sep extra,
       is_separator sep = true →
       score_le (compute_ats_score resume_text job_description)
                (compute_ats_score (resume_text ++ sep :: extra) job_description)).
Proof.
  split_and!.
  - intros resume_text job_description longer Hjob Hnew.
    rewrite !compute_ats_score_value. by apply ats_score_longer_job.
  - intros resume_text longer job_description Hresume.
    rewrite !compute_ats_score_value. by apply ats_score_longer_resume.
  - intros resume_text job_description sep extra Hsep Hnew.
    rewrite !compute_ats_score_value. apply ats_score_longer_job.
    + rewrite filtered_tokens_app by done. apply union_subseteq_l.
    + rewrite filtered_tokens_app by done. apply set_eq. intros t.
      assert (t ∉ filtered_tokens extra ∩ filtered_tokens resume_text) as Hout
        by (rewrite Hnew; apply not_elem_of_empty).
      rewrite elem_of_intersection in Hout.
      rewrite elem_of_intersection, elem_of_difference, elem_of_union.
      split; [clear -Hout; tauto|]. by intros ?%elem_of_empty.
  - intros resume_text job_description sep extra Hsep.
    rewrite !compute_ats_score_value. apply ats_score_longer_resume.
    rewrite filtered_tokens_app by done. apply union_subseteq_l.
Qed.

(* =================================================================== *)
(** * generate_suggestions *)

Lemma foldl_suggestions init lines :
  foldl (λ suggestions line,
           if negb (search_digit line)
           then suggestions ++ [quantify_message line]
           else suggestions) init lines
  = init ++ (quantify_message <$> filter (λ line, search_digit line = false) lines).
Proof.
  revert init. induction lines as [|line lines IH]; intros init; simpl.
  - by rewrite app_nil_r.
  - rewrite IH, filter_cons.
    destruct (search_digit line); case_decide; try done.
    simpl. by rewrite <- app_assoc.
Qed.

Lemma strip_bullet_lines (lines : list (list N)) :
  strip <$> filter (λ line, Is_true (is_bullet (strip line))) lines
  = filter (λ line, is_bullet line = true) (strip <$> lines).
Proof.
  induction lines as [|line lines IH]; [done|].
  rewrite fmap_cons, !filter_cons.
  destruct (is_bullet (strip line)) eqn:Hb; repeat case_decide; try done.
  by rewrite fmap_cons, IH.
Qed.


Lemma generate_suggestions_bullets text :
  generate_suggestions text =
  match unquantified_bullets text with
  | [] => [fallback_message]
  | _ :: _ => quantify_message <$> unquantified_bullets text
  end.
Proof.
  unfold generate_suggestions.
  rewrite foldl_suggestions, strip_bullet_lines, app_nil_l.
  fold (bullet_lines text). fold (unquantified_bullets text).
  by destruct (unquantified_bullets text).
Qed.


(* =================================================================== *)
(** * extract_text and totality *)

Lemma extract_text_returns env file_path :
  ∃ text, extract_text env file_path = Returned text.
Proof.
  unfold extract_text.
  destruct (decide (lower (splitext_ext file_path) = lit ".docx")).
  - destruct (docx_paragraphs env file_path); [by eexists|].
    destruct (read_text env file_path); by eexists.
  - destruct (decide (lower (splitext_ext file_path) = lit ".pdf")).
    + destruct (pdf_extract_text env file_path); [by eexists|].
      destruct (read_text env file_path); by eexists.
    + destruct (read_text env file_path); by eexists.
Qed.

Lemma extract_text_all_fail env file_path :
  docx_paragraphs env file_path = Raised →
  pdf_extract_text env file_path = Raised →
  read_text env file_path = Raised →
  extract_text env file_path = Returned [].
Proof.
  intros Hdocx Hpdf Hread. unfold extract_text.
  rewrite Hdocx, Hpdf, Hread. by repeat case_decide.
Qed.

(** C1: every analysis stage returns a value. [extract_text] returns a
    string whatever the parsers and the file system do, the empty string
    when the format-specific parser and the plain read both raise;
    [compute_ats_score] never reaches the division by zero, so it always
    returns a float; [extract_keywords] and [generate_suggestions] use no
    operation that can raise. *)
Theorem analysis_stages_total :
  (∀ env file_path, ∃ text, extract_text env file_path = Returned text)
  ∧ (∀ env file_path,
       docx_paragraphs env file_path = Raised →
       pdf_extract_text env file_path = Raised →
       read_text env file_path = Raised →
       extract_text env file_path = Returned [])
  ∧ (∀ text top_n, ∃ keywords, extract_keywords text top_n = keywords)
  ∧ (∀ resume_text job_description,
       ∃ score, compute_ats_score resume_text job_description = Some score)
  ∧ (∀ resume_text,
       ∃ suggestions, generate_suggestions resume_text = suggestions).
Proof.
  split_and!.
  - apply extract_text_returns.
  - apply extract_text_all_fail.
  - intros. by eexists.
  - intros. rewrite compute_ats_score_value. by eexists.
  - intros. by eexists.
Qed.

(* =================================================================== *)
(** * Letter case *)

(** An upper-case ASCII letter and its lower-case form have the same
    lowercase form. *)
Lemma lower_cp_upper c : is_upper c = true → lower_cp (c + 32) = lower_cp c.
Proof.
  unfold lower_cp, is_upper. intros Hc. rewrite Hc.
  apply andb_true_iff in Hc as [H1%N.leb_le H2%N.leb_le].
  replace ((c + 32 <=? 90)%N) with false by (symmetry; apply N.leb_gt; lia).
  replace ((c + 32 <? 128)%N) with true by (symmetry; apply N.ltb_lt; lia).
  by rewrite andb_false_r.
Qed.

Lemma case_variant_lower s s' : case_variant s s' → lower s' = lower s.
Proof.
  unfold lower. induction 1 as [|c c' s s' Hc _ IH]; simpl; [done|].
  rewrite IH. f_equal.
  destruct Hc as [->|[[Hc ->]|[[Hc ->]|[_ Hc]]]]; [done| | |done].
  - by apply lower_cp_upper.
  - symmetry. by apply lower_cp_upper.
Qed.

(** Every pair of strings with the same lowercase forms position by
    position is such a pair. *)
Lemma same_lower_case_variant s s' :
  Forall2 (λ c c', lower_cp c = lower_cp c') s s' → case_variant s s'.
Proof.
  unfold case_variant. induction 1 as [|c c' s s' Hc _ IH]; constructor; [|done].
  destruct (decide (128 <= c)%N) as [?|Hc1]; [right; right; right; by auto|].
  destruct (decide (128 <= c')%N) as [?|Hc2]; [right; right; right; by auto|].
  clear IH. revert Hc. unfold lower_cp.
  destruct (is_upper c) eqn:Hu, (is_upper c') eqn:Hu';
    replace ((c <? 128)%N) with true by (symmetry; apply N.ltb_lt; lia);
    replace ((c' <? 128)%N) with true by (symmetry; apply N.ltb_lt; lia);
    intros [= Heq].
  - left. lia.
  - right. left. by subst.
  - right. right. left. by subst.
  - by left.
Qed.

(** C10: two texts that differ in the case of ASCII letters, or in code
    points above ASCII that [str.lower] takes to the same string, have
    the same tokens, the same keywords for every [top_n], and the same
    score on either side of [compute_ats_score]. *)
Theorem analysis_ignores_letter_case s s' :
  case_variant s s' →
  _tokenize s' = _tokenize s
  ∧ (∀ top_n, extract_keywords s' top_n = extract_keywords s top_n)
  ∧ (∀ other, compute_ats_score s' other = compute_ats_score s other
              ∧ compute_ats_score other s' = compute_ats_score other s).
Proof.
  intros Hlower%case_variant_lower.
  assert (_tokenize s' = _tokenize s) as Htok
    by (unfold _tokenize; by rewrite Hlower).
  split_and!; [done| |].
  - intros top_n. unfold extract_keywords. by rewrite Hlower, Htok.
  - intros other. unfold compute_ats_score. by rewrite Htok.
Qed.

(** [str.lower] leaves no upper-case ASCII letter, given that the
    database maps no code point to one. *)
Hypothesis uni_lower_cased :
  ∀ c d, (128 <= c)%N → d ∈ uni_lower c → is_upper d = false.

Lemma lower_cp_cased c d : d ∈ lower_cp c → is_upper d = false.
Proof using uni_lower_cased.
  unfold lower_cp. destruct (is_upper c) eqn:Hc.
  - intros ->%list_elem_of_singleton. unfold is_upper in *.
    apply andb_true_iff in Hc as [?%N.leb_le ?%N.leb_le].
    apply andb_false_iff. right. apply N.leb_gt. lia.
  - destruct (N.ltb_spec c 128); [|by apply uni_lower_cased].
    by intros ->%list_elem_of_singleton.
Qed.

Lemma lower_cased s d : d ∈ lower s → is_upper d = false.
Proof using uni_lower_cased.
  unfold lower. rewrite list_elem_of_In, in_flat_map.
  intros (c & _ & Hd). apply (lower_cp_cased c). by apply list_elem_of_In.
Qed.

(** C5: [_tokenize] returns exactly the maximal runs of ASCII letters of
    the lowercased text, in order, every other character being a
    separator; so each token is a non-empty string of lowercase ASCII
    letters. ["C++"] gives [["c"]] and ["2024"] gives no token. *)
Theorem tokenize_maximal_lowercase_runs :
  (∀ text ts, alpha_runs (lower text) ts ↔ ts = _tokenize text)
  ∧ (∀ text t, t ∈ _tokenize text →
       t ≠ [] ∧ Forall (λ c, is_lower_az c = true) t)
  ∧ _tokenize (lit "C++") = [lit "c"]
  ∧ _tokenize (lit "2024") = [].
Proof using uni_lower_cased.
  split_and!; [| |done|done].
  - intros text ts. apply alpha_runs_iff.
  - intros text t Ht. destruct (tokenize_token _ _ Ht) as (Hne & Hal & a & b & Hs).
    split; [done|]. apply Forall_forall. intros c Hc.
    assert (is_upper c = false) as Hup.
    { apply (lower_cased text). rewrite Hs, !elem_of_app. auto. }
    rewrite Forall_forall in Hal. specialize (Hal c Hc).
    unfold is_alpha in Hal. rewrite Hup, orb_false_r in Hal. done.
Qed.

(* =================================================================== *)
(** * Further properties of extract_keywords *)

Lemma extract_keywords_as_union text top_n :
  extract_keywords text top_n
  = sorted (list_to_set (skill_matches text)
            ∪ list_to_set (frequent_tokens text top_n)).
Proof.
  unfold extract_keywords at 1. f_equal. apply set_eq. intros k.
  rewrite <- elem_of_sorted. fold (extract_keywords text top_n).
  rewrite elem_of_extract_keywords, elem_of_union, !elem_of_list_to_set. done.
Qed.

Lemma NoDup_extract_keywords text top_n : NoDup (extract_keywords text top_n).
Proof. apply NoDup_sorted. Qed.

Lemma frequent_tokens_nonpositive text top_n :
  (top_n <= 0)%Z → frequent_tokens text top_n = [].
Proof.
  intros Hn. unfold frequent_tokens, most_common.
  by replace (Z.to_nat top_n) with 0 by lia.
Qed.

Lemma frequent_tokens_mono text n m w :
  (n <= m)%Z → w ∈ frequent_tokens text n → w ∈ frequent_tokens text m.
Proof.
  intros Hnm. unfold frequent_tokens, most_common.
  rewrite !list_elem_of_fmap. intros (item & -> & Hin). exists item. split; [done|].
  replace (Z.to_nat n) with (Z.to_nat n `min` Z.to_nat m) in Hin by lia.
  rewrite <- take_take in Hin. by apply subseteq_take in Hin.
Qed.

Lemma elem_of_skill_matches text kw :
  kw ∈ skill_matches text → kw ∈ SKILL_KEYWORDS.
Proof. unfold skill_matches. by intros [_ ?]%list_elem_of_filter. Qed.

Lemma counted_tokens_filtered text t :
  t ∈ counted_tokens text ↔ t ∈ filtered_tokens text.
Proof.
  unfold counted_tokens, filtered_tokens, _filter_tokens.
  by rewrite list_elem_of_filter, elem_of_filter, elem_of_list_to_set.
Qed.

Lemma skill_keywords_not_stopwords kw : kw ∈ SKILL_KEYWORDS → kw ∉ STOPWORDS.
Proof.
  revert kw. apply Forall_forall.
  apply (bool_decide_unpack _). by vm_compute.
Qed.

Lemma skill_keywords_have_letter kw :
  kw ∈ SKILL_KEYWORDS → Exists (λ c, is_alpha c = true) kw.
Proof.
  revert kw. apply Forall_forall.
  apply (bool_decide_unpack _). by vm_compute.
Qed.

(** X1: a [top_n] of zero or less switches step 2 off: the result is the
    sorted list of the dictionary entries found, nothing else. *)
Theorem extract_keywords_without_top_n text top_n :
  (top_n <= 0)%Z →
  extract_keywords text top_n = sorted (list_to_set (skill_matches text))
  ∧ ∀ k, k ∈ extract_keywords text top_n → k ∈ SKILL_KEYWORDS.
Proof.
  intros Hn. split.
  - rewrite extract_keywords_as_union, frequent_tokens_nonpositive by done.
    f_equal. apply set_eq. intros k.
    rewrite elem_of_union, !elem_of_list_to_set, elem_of_nil. tauto.
  - intros k. rewrite elem_of_extract_keywords.
    rewrite frequent_tokens_nonpositive by done.
    intros [Hk|Hk]; [by apply elem_of_skill_matches in Hk|].
    by apply elem_of_nil in Hk.
Qed.

(** X2: a larger [top_n] never loses a keyword. *)
Theorem extract_keywords_grows_with_top_n text n m k :
  (n <= m)%Z →
  k ∈ extract_keywords text n → k ∈ extract_keywords text m.
Proof.
  intros Hnm. rewrite !elem_of_extract_keywords.
  intros [Hk|Hk]; [by left|right]. by apply (frequent_tokens_mono text n m).
Qed.

Lemma extract_keywords_length text top_n :
  length (extract_keywords text top_n) ≤ 34 + Z.to_nat top_n.
Proof.
  assert (extract_keywords text top_n
            ⊆+ skill_matches text ++ frequent_tokens text top_n) as Hsub.
  { apply NoDup_submseteq; [apply NoDup_extract_keywords|].
    intros k. rewrite elem_of_extract_keywords, elem_of_app. done. }
  apply submseteq_length in Hsub. rewrite length_app in Hsub.
  pose proof (length_filter (λ kw, contains (lower text) (lower kw) = true)
                SKILL_KEYWORDS) as Hskills.
  fold (skill_matches text) in Hskills.
  change (length SKILL_KEYWORDS) with 34 in Hskills.
  pose proof (frequent_tokens_length text top_n) as Hfreq. lia.
Qed.

(** X3: the result has at most as many entries as the dictionary has
    (34) plus [top_n], and no more than 34 when [top_n] is negative. *)
Theorem extract_keywords_length_bound text top_n :
  length (extract_keywords text top_n) ≤ 34 + Z.to_nat top_n
  ∧ ((top_n < 0)%Z → length (extract_keywords text top_n) ≤ 34).
Proof.
  pose proof (extract_keywords_length text top_n) as Hlen.
  split; [done|]. intros Hneg. by replace (Z.to_nat top_n) with 0 in Hlen by lia.
Qed.

(** X4: no stopword is ever returned, and every keyword is an entry of
    the dictionary or a token that [compute_ats_score] would count for
    this text. *)
Theorem extract_keywords_never_stopword text top_n k :
  k ∈ extract_keywords text top_n →
  (k ∉ STOPWORDS) ∧ (k ∈ SKILL_KEYWORDS ∨ k ∈ filtered_tokens text).
Proof.
  rewrite elem_of_extract_keywords. intros [Hk|Hk].
  - apply elem_of_skill_matches in Hk. split; [|by left].
    by apply skill_keywords_not_stopwords.
  - apply frequent_tokens_counted in Hk. split.
    + unfold counted_tokens in Hk. by apply list_elem_of_filter in Hk as [[? _] _].
    + right. by apply counted_tokens_filtered.
Qed.

(** X5: when [top_n] is at least the number of distinct counted tokens,
    every counted token is a keyword. *)
Theorem extract_keywords_saturated text top_n t :
  (Z.of_nat (length (first_seen (counted_tokens text))) <= top_n)%Z →
  t ∈ counted_tokens text →
  t ∈ extract_keywords text top_n.
Proof.
  intros Hn Ht. rewrite elem_of_extract_keywords. right.
  unfold frequent_tokens, most_common. rewrite take_ge.
  - apply list_elem_of_fmap. exists (t, occurrences t (counted_tokens text)).
    split; [done|]. by apply elem_of_sort_by_count_Counter.
  - rewrite sort_by_count_Permutation, Counter_items, length_fmap. lia.
Qed.

(** X6: a text whose lowercase form has no ASCII letter, the empty text
    among them, has no keyword at all. *)
Theorem extract_keywords_no_letters text top_n :
  Forall (λ c, is_alpha c = false) (lower text) →
  extract_keywords text top_n = [].
Proof.
  intros Hno. rewrite Forall_forall in Hno.
  destruct (extract_keywords text top_n) as [|k ks] eqn:Hks; [done|exfalso].
  assert (k ∈ extract_keywords text top_n) as Hk by (rewrite Hks; left).
  apply elem_of_extract_keywords in Hk as [Hk|Hk].
  - unfold skill_matches in Hk.
    apply list_elem_of_filter in Hk as [(a & b & Htext)%contains_spec Hkw].
    rewrite (skill_keywords_lowercase k Hkw) in Htext.
    apply skill_keywords_have_letter, Exists_exists in Hkw as (c & Hc & Halpha).
    rewrite (Hno c) in Halpha; [done|]. rewrite Htext, !elem_of_app. auto.
  - apply frequent_tokens_counted in Hk. unfold counted_tokens in Hk.
    apply list_elem_of_filter in Hk as [_ Hk].
    apply tokenize_token in Hk as (Hne & Hal & a & b & Htext).
    destruct k as [|c k]; [done|]. apply Forall_cons in Hal as [Halpha _].
    rewrite (Hno c) in Halpha; [done|]. rewrite Htext, !elem_of_app.
    right. left. left.
Qed.

(* =================================================================== *)
(** * Further properties of compute_ats_score *)

Section ScoreRange.
Local Open Scope Z_scope.

Lemma float_units_full_ratio :
  float_units (float_mul_int (Float (2 ^ 52) (-52)) 100) = 100 * 2 ^ 1074.
Proof. vm_compute. reflexivity. Qed.

Lemma score_of_counts_hundredths k n :
  (0 < n)%nat → (k <= n)%nat →
  ∃ h, 0 <= h <= 10000 ∧ score_of_counts k n = round_binary64 h 100.
Proof.
  intros Hn Hk. unfold score_of_counts, py_round.
  change (10 ^ Z.of_nat 2) with 100.
  set (x := float_mul_int (round_binary64 (Z.of_nat k) (Z.of_nat n)) 100).
  exists (round_half_even (float_units x * 100) (2 ^ 1074)).
  split; [|reflexivity].
  assert (0 < 2 ^ 1074) as HW by (apply Z.pow_pos_nonneg; lia).
  assert (0 <= float_units (round_binary64 (Z.of_nat k) (Z.of_nat n))) as Hratio.
  { rewrite float_units_round_binary64. apply round_units_nonneg; lia. }
  assert (0 <= float_units x) as Hx.
  { subst x. unfold float_mul_int. rewrite float_units_round_binary64.
    apply round_units_nonneg; lia. }
  assert (float_units x <= 100 * 2 ^ 1074) as Hle.
  { rewrite <- float_units_full_ratio.
    rewrite <- (round_binary64_same (Z.of_nat n)) by lia.
    apply (float_mul_int_mono _ _ 100); [done|lia|].
    apply round_binary64_mono; [lia|lia|lia|].
    apply Z.mul_le_mono_nonneg_r; lia. }
  split.
  - apply round_half_even_nonneg; lia.
  - apply round_half_even_le_int; [done|]. lia.
Qed.

End ScoreRange.

Lemma ats_score_hundredths resume_text job_description :
  ∃ h, (0 <= h <= 10000)%Z
       ∧ ats_score resume_text job_description = round_binary64 h 100.
Proof.
  unfold ats_score.
  destruct (decide (filtered_tokens job_description = ∅)) as [|Hne].
  - exists 0%Z. split; [lia|]. by rewrite round_binary64_zero by lia.
  - destruct (score_of_counts_hundredths
                (size (filtered_tokens job_description
                       ∩ filtered_tokens resume_text))
                (size (filtered_tokens job_description))) as (h & Hh & Hscore).
    + by apply filtered_tokens_size_pos.
    + apply subseteq_size, intersection_subseteq_l.
    + by exists h.
Qed.

(** X7: the score is a number of hundredths between 0 and 100: the float
    nearest to [h / 100] for an integer [h] from 0 to 10000; so it lies
    between [0.0] and [100.0]. *)
Theorem compute_ats_score_hundredths resume_text job_description :
  ∃ h score,
    (0 <= h <= 10000)%Z
    ∧ compute_ats_score resume_text job_description = Some score
    ∧ score = round_binary64 h 100
    ∧ float_le float_zero score ∧ float_le score (float_of_Z 100).
Proof.
  destruct (ats_score_hundredths resume_text job_description) as (h & Hh & Hscore).
  exists h, (ats_score resume_text job_description).
  split; [done|]. split; [apply compute_ats_score_value|]. split; [done|].
  rewrite Hscore. split.
  - rewrite <- (round_binary64_zero 100) by lia.
    apply round_binary64_mono; lia.
  - replace (float_of_Z 100) with (round_binary64 10000 100)
      by (vm_compute; reflexivity).
    apply round_binary64_mono; lia.
Qed.

(** X8: a resume that shares no filtered token with the job description
    scores exactly [0.0]; the empty resume is such a case. *)
Theorem disjoint_texts_score_zero :
  (∀ resume_text job_description,
     filtered_tokens job_description ∩ filtered_tokens resume_text = ∅ →
     compute_ats_score resume_text job_description = Some float_zero)
  ∧ (∀ job_description,
       compute_ats_score [] job_description = Some float_zero).
Proof.
  assert (∀ resume_text job_description,
            filtered_tokens job_description ∩ filtered_tokens resume_text = ∅ →
            compute_ats_score resume_text job_description = Some float_zero)
    as Hdisjoint.
  { intros resume_text job_description Hempty.
    rewrite compute_ats_score_value. unfold ats_score.
    destruct (decide (filtered_tokens job_description = ∅)) as [|Hne];
      [reflexivity|].
    rewrite Hempty, size_empty.
    by rewrite score_of_counts_none by by apply filtered_tokens_size_pos. }
  split; [done|]. intros job_description. apply Hdisjoint.
  rewrite filtered_tokens_nil. apply intersection_empty_r_L.
Qed.

(** X9: a resume that has every filtered token of a job description with
    at least one such token scores exactly [100.0]. *)
Theorem covering_resume_scores_hundred resume_text job_description :
  filtered_tokens job_description ≠ ∅ →
  filtered_tokens job_description ⊆ filtered_tokens resume_text →
  compute_ats_score resume_text job_description = Some (float_of_Z 100).
Proof.
  intros Hne Hsub. rewrite compute_ats_score_value. unfold ats_score.
  rewrite decide_False by done.
  replace (filtered_tokens job_description ∩ filtered_tokens resume_text)
    with (filtered_tokens job_description).
  - by rewrite score_of_counts_full by by apply filtered_tokens_size_pos.
  - apply set_eq. intros t. rewrite elem_of_intersection.
    rewrite elem_of_subseteq in Hsub. specialize (Hsub t). clear -Hsub. tauto.
Qed.

Lemma compute_ats_score_filtered resume_text resume_text' job job' :
  filtered_tokens resume_text = filtered_tokens resume_text' →
  filtered_tokens job = filtered_tokens job' →
  compute_ats_score resume_text job = compute_ats_score resume_text' job'.
Proof.
  intros Hr Hj. rewrite !compute_ats_score_value. unfold ats_score.
  by rewrite Hr, Hj.
Qed.

(** X10: the score counts each token once and ignores the order of the
    text: repeating a text after a separator, or swapping two parts of
    it, changes nothing, on either side. *)
Theorem compute_ats_score_ignores_repetition a b other sep :
  is_separator sep = true →
  compute_ats_score (a ++ sep :: a) other = compute_ats_score a other
  ∧ compute_ats_score other (a ++ sep :: a) = compute_ats_score other a
  ∧ compute_ats_score (a ++ sep :: b) other
    = compute_ats_score (b ++ sep :: a) other
  ∧ compute_ats_score other (a ++ sep :: b)
    = compute_ats_score other (b ++ sep :: a).
Proof.
  intros Hsep.
  assert (filtered_tokens (a ++ sep :: a) = filtered_tokens a) as Hrep.
  { rewrite filtered_tokens_app by done. apply union_idemp_L. }
  assert (filtered_tokens (a ++ sep :: b) = filtered_tokens (b ++ sep :: a))
    as Hswap.
  { rewrite !filtered_tokens_app by done. apply union_comm_L. }
  split_and!; by apply compute_ats_score_filtered.
Qed.

(* =================================================================== *)
(** * Further properties of the tokenizer *)

Lemma tokenize_join sep parts :
  is_separator sep = true →
  _tokenize (join [sep] parts) = concat (_tokenize <$> parts).
Proof.
  intros Hsep. induction parts as [|p parts IH]; [done|].
  destruct parts as [|q parts].
  - simpl. by rewrite app_nil_r.
  - change (join [sep] (p :: q :: parts))
      with (p ++ sep :: join [sep] (q :: parts)).
    rewrite tokenize_app by done. by rewrite IH.
Qed.

Lemma lower_lowercase t :
  Forall (λ c, is_lower_az c = true) t → lower t = t.
Proof.
  unfold lower. induction 1 as [|c t Hc _ IH]; [done|]. simpl. rewrite IH.
  unfold lower_cp, is_upper. unfold is_lower_az in Hc.
  apply andb_true_iff in Hc as [H1%N.leb_le H2%N.leb_le].
  replace ((c <=? 90)%N) with false by (symmetry; apply N.leb_gt; lia).
  replace ((c <? 128)%N) with true by (symmetry; apply N.ltb_lt; lia).
  by rewrite andb_false_r.
Qed.

Lemma tokenize_word t :
  t ≠ [] → Forall (λ c, is_lower_az c = true) t → _tokenize t = [t].
Proof.
  intros Hne Hlow. unfold _tokenize, findall_alpha.
  rewrite lower_lowercase by done. rewrite <- (app_nil_r t) at 1.
  rewrite findall_alpha_from_run.
  - simpl. by destruct t.
  - eapply Forall_impl; [exact Hlow|]. intros c Hc. unfold is_alpha. by rewrite Hc.
Qed.

(** X11: the tokens of parts joined by a separator are the tokens of the
    parts, one after the other; so the tokens of a DOCX document are
    those of its paragraphs. *)
Theorem tokenize_joined_parts sep parts :
  is_separator sep = true →
  _tokenize (join [sep] parts) = concat (_tokenize <$> parts).
Proof. apply tokenize_join. Qed.

(* =================================================================== *)
(** * Lines, paragraphs and bullets *)

Lemma splitlines_from_plain line p s :
  Forall (λ c, is_linebreak c = false) p →
  splitlines_from line (p ++ s) = splitlines_from (line ++ p) s.
Proof.
  intros Hp. revert line. induction Hp as [|c p Hc _ IH]; intros line.
  - by rewrite app_nil_r.
  - simpl. destruct (N.eqb_spec c 13) as [->|_]; [done|].
    rewrite Hc, IH. by rewrite <- app_assoc.
Qed.

Lemma splitlines_join paragraphs :
  Forall (Forall (λ c, is_linebreak c = false)) paragraphs →
  last paragraphs ≠ Some [] →
  splitlines (join [10%N] paragraphs) = paragraphs.
Proof.
  unfold splitlines. induction 1 as [|p ps Hp _ IH]; intros Hlast; [done|].
  destruct ps as [|q ps].
  - simpl. rewrite <- (app_nil_r p) at 1.
    rewrite splitlines_from_plain by done. simpl. by destruct p.
  - change (join [10%N] (p :: q :: ps))
      with (p ++ 10%N :: join [10%N] (q :: ps)).
    rewrite splitlines_from_plain by done. simpl. f_equal.
    apply IH. by rewrite last_cons_cons in Hlast.
Qed.

(** X12: for a [.docx] path whose parser returns paragraphs without line
    breaks, the last one not empty, the lines of the extracted text are
    exactly the paragraphs. *)
Theorem docx_paragraphs_are_lines env file_path paragraphs :
  lower (splitext_ext file_path) = lit ".docx" →
  docx_paragraphs env file_path = Returned paragraphs →
  Forall (Forall (λ c, is_linebreak c = false)) paragraphs →
  last paragraphs ≠ Some [] →
  ∃ text, extract_text env file_path = Returned text
          ∧ splitlines text = paragraphs.
Proof.
  intros Hext Hdocx Hplain Hlast. exists (join [10%N] paragraphs). split.
  - unfold extract_text. rewrite Hext, Hdocx. by rewrite decide_True.
  - by apply splitlines_join.
Qed.

(** X13: when no parser applies, or the one that applies raises, the
    result is the plain read of the file, and the empty string when that
    fails too. *)
Theorem extract_text_falls_back env file_path :
  (lower (splitext_ext file_path) = lit ".docx" →
   docx_paragraphs env file_path = Raised) →
  (lower (splitext_ext file_path) = lit ".pdf" →
   pdf_extract_text env file_path = Raised) →
  extract_text env file_path =
  Returned (match read_text env file_path with
            | Returned text => text
            | Raised => []
            end).
Proof.
  intros Hdocx Hpdf. unfold extract_text.
  destruct (decide (lower (splitext_ext file_path) = lit ".docx")) as [Hd|_].
  - rewrite (Hdocx Hd). by destruct (read_text env file_path).
  - destruct (decide (lower (splitext_ext file_path) = lit ".pdf")) as [Hp|_].
    + rewrite (Hpdf Hp). by destruct (read_text env file_path).
    + by destruct (read_text env file_path).
Qed.

Lemma splitlines_from_cr line s :
  splitlines_from line (13%N :: s) = line :: splitlines_from [] (after_cr s).
Proof.
  destruct s as [|d s]; [done|].
  destruct d as [|[[[[]|[]|]|[[]|[]|]|]|[[[]|[]|]|[[]|[]|]|]|]]; reflexivity.
Qed.

Lemma after_cr_other d s : d ≠ 10%N → after_cr (d :: s) = d :: s.
Proof.
  intros Hd.
  destruct d as [|[[[[]|[]|]|[[]|[]|]|]|[[[]|[]|]|[[]|[]|]|]|]]; done.
Qed.

Lemma splitlines_from_app_newline a b line :
  filter (.≠ []) (splitlines_from line (a ++ 10%N :: b))
  = filter (.≠ []) (splitlines_from line a) ++ filter (.≠ []) (splitlines b).
Proof.
  remember (length a) as n eqn:Hn. revert a line Hn.
  induction n as [n IH] using lt_wf_ind. intros a line Hn.
  destruct a as [|c a].
  - change (splitlines_from line ([] ++ 10%N :: b)) with (line :: splitlines b).
    change (splitlines_from line []) with (flush line).
    rewrite filter_cons. destruct line as [|c line]; case_decide; done.
  - simpl in Hn. rewrite <- app_comm_cons.
    destruct (N.eqb_spec c 13) as [->|Hc].
    + rewrite !splitlines_from_cr, !filter_cons.
      assert (filter (.≠ []) (splitlines_from [] (after_cr (a ++ 10%N :: b)))
              = filter (.≠ []) (splitlines_from [] (after_cr a))
                ++ filter (.≠ []) (splitlines b)) as ->.
      { destruct a as [|d a]; [done|].
        destruct (decide (d = 10%N)) as [->|Hd].
        - simpl. apply (IH (length a)); [simpl in Hn; lia|done].
        - rewrite <- app_comm_cons, !after_cr_other by done.
          rewrite app_comm_cons. apply (IH (length (d :: a))); [lia|done]. }
      by case_decide.
    + cbn [splitlines_from]. rewrite (proj2 (N.eqb_neq c 13) Hc).
      destruct (is_linebreak c).
      * rewrite !filter_cons.
        rewrite (IH (length a)) by (lia || done). by case_decide.
      * apply (IH (length a)); [lia|done].
Qed.

Lemma bullet_lines_skip_empty (lines : list (list N)) :
  filter (λ line, is_bullet line = true) (strip <$> lines)
  = filter (λ line, is_bullet line = true) (strip <$> filter (.≠ []) lines).
Proof.
  induction lines as [|line lines IH]; [done|].
  rewrite (filter_cons (.≠ [])). destruct line as [|c line].
  - rewrite decide_False by auto. rewrite fmap_cons, filter_cons.
    by rewrite decide_False.
  - rewrite decide_True by done. rewrite !fmap_cons, !filter_cons. by rewrite IH.
Qed.

Lemma unquantified_bullets_app_newline a b :
  unquantified_bullets (a ++ 10%N :: b)
  = unquantified_bullets a ++ unquantified_bullets b.
Proof.
  unfold unquantified_bullets, bullet_lines, splitlines.
  rewrite bullet_lines_skip_empty, splitlines_from_app_newline.
  rewrite fmap_app, !filter_app.
  fold (splitlines a). fold (splitlines b).
  by rewrite <- !bullet_lines_skip_empty.
Qed.

(** X14: the suggestions for two texts joined by a newline are those of
    the first followed by those of the second; the generic message
    stands in only when neither part has a bullet line to quantify. *)
Theorem generate_suggestions_joined a b :
  generate_suggestions (a ++ 10%N :: b) =
  match unquantified_bullets a, unquantified_bullets b with
  | [], [] => [fallback_message]
  | [], _ :: _ => generate_suggestions b
  | _ :: _, [] => generate_suggestions a
  | _ :: _, _ :: _ => generate_suggestions a ++ generate_suggestions b
  end.
Proof.
  rewrite !generate_suggestions_bullets, unquantified_bullets_app_newline.
  destruct (unquantified_bullets a) as [|x xs], (unquantified_bullets b) as [|y ys];
    try done.
  - by rewrite app_nil_r.
  - rewrite fmap_app. done.
Qed.

Lemma tokenize_token_lowercase text t :
  t ∈ _tokenize text → t ≠ [] ∧ Forall (λ c, is_lower_az c = true) t.
Proof using uni_lower_cased.
  intros Ht. destruct (tokenize_token _ _ Ht) as (Hne & Hal & a & b & Hs).
  split; [done|]. apply Forall_forall. intros c Hc.
  assert (is_upper c = false) as Hup.
  { apply (lower_cased text). rewrite Hs, !elem_of_app. auto. }
  rewrite Forall_forall in Hal. specialize (Hal c Hc).
  unfold is_alpha in Hal. by rewrite Hup, orb_false_r in Hal.
Qed.

(** X15: tokenizing is a normal form: the tokens of a text, joined by a
    separator and tokenized again, are the same tokens. *)
Theorem tokenize_round_trip text sep :
  is_separator sep = true →
  _tokenize (join [sep] (_tokenize text)) = _tokenize text.
Proof using uni_lower_cased.
  intros Hsep. rewrite tokenize_join by done.
  assert (Forall (λ t, _tokenize t = [t]) (_tokenize text)) as Hwords.
  { apply Forall_forall. intros t Ht.
    apply tokenize_token_lowercase in Ht as [Hne Hlow]. by apply tokenize_word. }
  induction Hwords as [|t ts Ht _ IH]; [done|].
  rewrite fmap_cons. simpl. by rewrite Ht, IH.
Qed.

(* =================================================================== *)
(** * The endpoint *)

Lemma until_not_elem c s : c ∉ until c s.
Proof.
  induction s as [|d s IH]; simpl; [apply not_elem_of_nil|].
  destruct (N.eqb_spec d c); [apply not_elem_of_nil|].
  apply not_elem_of_cons. split; [by intros ->|done].
Qed.

Lemma until_subseteq c s x : x ∈ until c s → x ∈ s.
Proof.
  induction s as [|d s IH]; simpl; [done|].
  destruct (N.eqb_spec d c); [by intros ?%elem_of_nil|].
  intros [->|?]%elem_of_cons; [left|right; auto].
Qed.

Lemma until_absent c s : c ∉ s → until c s = s.
Proof.
  induction s as [|d s IH]; simpl; [done|]. intros [Hd Hs]%not_elem_of_cons.
  destruct (N.eqb_spec d c); [congruence|]. by rewrite IH.
Qed.

Lemma until_app_sep c a b : c ∉ a → until c (a ++ c :: b) = a.
Proof.
  induction a as [|d a IH]; simpl.
  - by rewrite N.eqb_refl.
  - intros [Hd Ha]%not_elem_of_cons.
    destruct (N.eqb_spec d c); [congruence|]. by rewrite IH.
Qed.

Lemma skip_subseteq c s x : x ∈ skip c s → x ∈ s.
Proof.
  induction s as [|d s IH]; simpl; [done|].
  destruct (N.eqb_spec d c); [|done]. intros ?. right. auto.
Qed.

Lemma elem_of_rev (s : list N) x : x ∈ rev s ↔ x ∈ s.
Proof. by rewrite !list_elem_of_In, <- in_rev. Qed.

(** An extension is empty, or a dot followed by characters that are
    neither a dot nor a slash. *)
Lemma splitext_ext_shape p :
  splitext_ext p = []
  ∨ ∃ rest, splitext_ext p = 46%N :: rest ∧ (46%N ∉ rest) ∧ (47%N ∉ rest).
Proof.
  unfold splitext_ext.
  set (stem := skip 46 (rev (until 47 (rev p)))).
  destruct (bool_decide (46%N ∈ stem)); [right|by left].
  exists (rev (until 46 (rev stem))). split; [done|]. split.
  - rewrite elem_of_rev. apply until_not_elem.
  - rewrite elem_of_rev. intros Hin%until_subseteq.
    rewrite elem_of_rev in Hin. apply skip_subseteq in Hin.
    rewrite elem_of_rev in Hin. by apply until_not_elem in Hin.
Qed.

(** The temporary file has the extension of the uploaded name. *)
Lemma splitext_ext_temp dir stem name :
  plain_stem stem →
  splitext_ext (dir ++ [47%N] ++ stem ++ splitext_ext name) = splitext_ext name.
Proof.
  intros [Hne Hstem].
  set (suffix := splitext_ext name).
  assert (47%N ∉ stem ++ suffix) as Hslash.
  { rewrite elem_of_app. intros [Hin|Hin].
    - rewrite Forall_forall in Hstem. by destruct (Hstem _ Hin).
    - subst suffix. destruct (splitext_ext_shape name) as [Hs|(rest & Hs & _ & Hr)];
        rewrite Hs in Hin; [by apply elem_of_nil in Hin|].
      by apply elem_of_cons in Hin as [?|?]. }
  unfold splitext_ext at 1.
  replace (dir ++ [47%N] ++ stem ++ suffix)
    with (dir ++ 47%N :: (stem ++ suffix)) by done.
  rewrite rev_app_distr. simpl. rewrite <- app_assoc. simpl.
  rewrite until_app_sep by by rewrite elem_of_rev.
  rewrite rev_involutive.
  destruct stem as [|c stem]; [done|].
  apply Forall_cons in Hstem as [[Hdot _] Hstem].
  assert (skip 46 ((c :: stem) ++ suffix) = (c :: stem) ++ suffix) as ->.
  { simpl. by destruct (N.eqb_spec c 46). }
  assert (46%N ∉ c :: stem) as Hnodot.
  { apply not_elem_of_cons. split; [done|]. intros Hin.
    rewrite Forall_forall in Hstem. by destruct (Hstem _ Hin). }
  subst suffix.
  destruct (splitext_ext_shape name) as [Hs|(rest & Hs & Hdots & _)]; rewrite Hs.
  - rewrite app_nil_r. by rewrite bool_decide_eq_false_2.
  - rewrite bool_decide_eq_true_2 by (rewrite elem_of_app; right; left).
    rewrite rev_app_distr. simpl. rewrite <- app_assoc. simpl.
    rewrite until_app_sep by by rewrite elem_of_rev.
    by rewrite rev_involutive.
Qed.

Lemma extract_text_congruence env env' path path' :
  splitext_ext path = splitext_ext path' →
  docx_paragraphs env path = docx_paragraphs env' path' →
  pdf_extract_text env path = pdf_extract_text env' path' →
  read_text env path = read_text env' path' →
  extract_text env path = extract_text env' path'.
Proof. intros Hext Hdocx Hpdf Hread. unfold extract_text. by rewrite Hext, Hdocx, Hpdf, Hread. Qed.

Lemma analyze_resume_result fs file job_description :
  creatable fs (temporary_path fs file) = true →
  ∃ resume_text,
    extract_text
      (file_environment (<[temporary_path fs file := app.content file]> fs))
      (temporary_path fs file)
    = Returned resume_text
    ∧ (analyze_resume fs file job_description).1
      = Returned (response_for resume_text job_description).
Proof.
  intros Hcreated. unfold analyze_resume.
  fold (temporary_path fs file). rewrite Hcreated.
  destruct (extract_text_returns
              (file_environment (<[temporary_path fs file := app.content file]> fs))
              (temporary_path fs file))
    as [resume_text Htext].
  exists resume_text. split; [done|]. rewrite Htext.
  by rewrite compute_ats_score_value.
Qed.

(** X16: the handler touches no file but the temporary one. With a
    fresh temporary name, a request whose file was written and whose
    [os.unlink] succeeded leaves the file system as it was. When
    [os.unlink] raises the file stays, with the uploaded bytes. When the
    file could not be written the handler raises and what the [with]
    block left is still there, since that block is before the [try];
    only when the file was never created is nothing left. *)
Theorem analyze_resume_temporary_file fs file job_description :
  (∀ path, path ≠ temporary_path fs file →
           (analyze_resume fs file job_description).2 !! path = fs !! path)
  ∧ (fs !! temporary_path fs file = None →
     creatable fs (temporary_path fs file) = true →
     unlinkable (<[temporary_path fs file := app.content file]> fs)
                (temporary_path fs file) = true →
     (analyze_resume fs file job_description).2 = fs)
  ∧ (creatable fs (temporary_path fs file) = true →
     unlinkable (<[temporary_path fs file := app.content file]> fs)
                (temporary_path fs file) = false →
     (analyze_resume fs file job_description).2
     = <[temporary_path fs file := app.content file]> fs)
  ∧ (creatable fs (temporary_path fs file) = false →
     (analyze_resume fs file job_description).1 = Raised
     ∧ (∀ partial,
          left_behind fs (temporary_path fs file) (app.content file)
          = Some partial →
          (analyze_resume fs file job_description).2
          = <[temporary_path fs file := partial]> fs)
     ∧ (left_behind fs (temporary_path fs file) (app.content file) = None →
        (analyze_resume fs file job_description).2 = fs)).
Proof.
  unfold analyze_resume. fold (temporary_path fs file).
  set (tmp_path := temporary_path fs file).
  set (written := <[tmp_path := app.content file]> fs).
  assert (∀ fs' : gmap (list N) (list Byte.byte),
            (match extract_text (file_environment written) tmp_path with
             | Raised => (Raised, fs')
             | Returned resume_text =>
                 match compute_ats_score resume_text job_description with
                 | None => (Raised, fs')
                 | Some ats_score =>
                     (Returned
                        (app.Build_AnalysisResult (extract_keywords resume_text 10)
                           ats_score (generate_suggestions resume_text)), fs')
                 end
             end).2 = fs') as Hsnd.
  { intros fs'. destruct (extract_text _ tmp_path); [|done].
    by destruct (compute_ats_score _ job_description). }
  split_and!.
  - intros path Hpath. destruct (creatable fs tmp_path).
    + rewrite Hsnd. destruct (unlinkable written tmp_path); unfold written.
      * by rewrite lookup_delete_ne, lookup_insert_ne.
      * by rewrite lookup_insert_ne.
    + simpl. destruct (left_behind fs tmp_path (app.content file)); [|done].
      by rewrite lookup_insert_ne.
  - intros Hfresh -> ->. rewrite Hsnd. unfold written.
    by rewrite delete_insert_eq, delete_id.
  - intros -> ->. by rewrite Hsnd.
  - intros ->. split_and!; [done| |].
    + by intros partial ->.
    + by intros ->.
Qed.

(** X17: the parser is chosen by the extension of the uploaded name, and
    the response depends on the upload alone: once the temporary file is
    written, it is the response for the text that [extract_text] gives
    for the uploaded name when the calls see the uploaded bytes,
    whatever the file system and the temporary name are. *)
Theorem analyze_resume_follows_uploaded_name fs file job_description :
  plain_stem (temp_stem fs) →
  creatable fs (temporary_path fs file) = true →
  ∃ resume_text,
    extract_text (upload_environment (app.content file))
                 (default [] (app.filename file)) = Returned resume_text
    ∧ (analyze_resume fs file job_description).1
      = Returned (response_for resume_text job_description).
Proof.
  intros Hstem Hcreated.
  destruct (analyze_resume_result fs file job_description Hcreated)
    as (resume_text & Htext & Hresult).
  exists resume_text. split; [|done]. rewrite <- Htext.
  apply extract_text_congruence.
  - unfold temporary_path. by rewrite splitext_ext_temp.
  - simpl. by rewrite lookup_insert_eq.
  - simpl. by rewrite lookup_insert_eq.
  - simpl. by rewrite lookup_insert_eq.
Qed.

(** X18: the handler raises only when the temporary file cannot be
    written; otherwise it answers with at most 44 keywords, a score in
    hundredths from 0 to 100, and at least one suggestion. *)
Theorem analyze_resume_response fs file job_description :
  if creatable fs (temporary_path fs file) then
    ∃ response h,
      (analyze_resume fs file job_description).1 = Returned response
      ∧ length (app.keywords response) ≤ 44
      ∧ (0 <= h <= 10000)%Z
      ∧ app.ats_score response = round_binary64 h 100
      ∧ app.suggestions response ≠ []
  else (analyze_resume fs file job_description).1 = Raised.
Proof.
  destruct (creatable fs (temporary_path fs file)) eqn:Hcreated.
  - destruct (analyze_resume_result fs file job_description Hcreated)
      as (resume_text & _ & Hresult).
    destruct (ats_score_hundredths resume_text job_description) as (h & Hh & Hscore).
    exists (response_for resume_text job_description), h.
    split; [done|]. split; [|split; [done|split; [done|]]].
    + apply (extract_keywords_length resume_text 10).
    + simpl. rewrite generate_suggestions_bullets.
      by destruct (unquantified_bullets resume_text).
  - unfold analyze_resume. fold (temporary_path fs file). by rewrite Hcreated.
Qed.

(* =================================================================== *)
(** * Padding and counting *)

(** X19: text that adds no filtered token (stopwords, words of one or two
    letters, digits, punctuation) can be appended to either side without
    changing the score. *)
Theorem compute_ats_score_ignores_padding resume_text job_description sep padding :
  is_separator sep = true →
  filtered_tokens padding = ∅ →
  compute_ats_score (resume_text ++ sep :: padding) job_description
  = compute_ats_score resume_text job_description
  ∧ compute_ats_score resume_text (job_description ++ sep :: padding)
    = compute_ats_score resume_text job_description.
Proof.
  intros Hsep Hpad.
  assert (∀ text, filtered_tokens (text ++ sep :: padding) = filtered_tokens text)
    as Hsame.
  { intros text. rewrite filtered_tokens_app by done.
    rewrite Hpad. apply union_empty_r_L. }
  split; by apply compute_ats_score_filtered.
Qed.

(** X20: there is at least one suggestion and at most one per line of
    the text (one in all for a text without lines). *)
Theorem generate_suggestions_count text :
  1 ≤ length (generate_suggestions text)
  ∧ length (generate_suggestions text) ≤ 1 `max` length (splitlines text).
Proof.
  rewrite generate_suggestions_bullets.
  pose proof (length_filter (λ line, search_digit line = false)
                (bullet_lines text)) as H1.
  fold (unquantified_bullets text) in H1.
  pose proof (length_filter (λ line, is_bullet line = true)
                (strip <$> splitlines text)) as H2.
  fold (bullet_lines text) in H2. rewrite length_fmap in H2.
  destruct (unquantified_bullets text) as [|line rest] eqn:Hb.
  - simpl. lia.
  - rewrite length_fmap. simpl in *. lia.
Qed.
End Analysis.

(* ===================================================================== *)
(** * Instances on concrete texts *)

Lemma latin_lower_cased c d :
  (128 <= c)%N → d ∈ latin_lower c → is_upper d = false.
Proof.
  unfold latin_lower, is_upper. intros Hc.
  destruct (N.eqb_spec c 8490); [by intros ->%list_elem_of_singleton|].
  destruct (N.eqb_spec c 304).
  - intros [->| ->%list_elem_of_singleton]%elem_of_cons; done.
  - intros ->%list_elem_of_singleton.
    apply andb_false_iff. right. apply N.leb_gt. lia.
Qed.

Lemma tokenize_maximal_lowercase_runs_witness :
  (∀ c d, (128 <= c)%N → d ∈ latin_lower c → is_upper d = false)
  ∧ _tokenize latin_lower (lit "C++") = [lit "c"]
  ∧ _tokenize latin_lower (lit "2024") = [].
Proof.
  split; [exact latin_lower_cased|].
  exact (proj2 (proj2 (tokenize_maximal_lowercase_runs latin_lower latin_lower_cased))).
Defined.

Lemma empty_job_description_scores_zero_witness :
  filtered_tokens latin_lower (lit "the of it") = ∅
  ∧ compute_ats_score latin_lower (lit "Python and SQL") (lit "the of it")
    = Some float_zero.
Proof.
  assert (filtered_tokens latin_lower (lit "the of it") = ∅) as H
    by (vm_compute; reflexivity).
  split; [exact H|].
  exact (proj1 (empty_job_description_scores_zero latin_lower)
           (lit "Python and SQL") (lit "the of it") H).
Defined.

Lemma identical_texts_score_hundred_witness :
  filtered_tokens latin_lower (lit "Python developer") ≠ ∅
  ∧ compute_ats_score latin_lower (lit "Python developer") (lit "Python developer")
    = Some (float_of_Z 100).
Proof.
  assert (filtered_tokens latin_lower (lit "Python developer") ≠ ∅) as H
    by (vm_compute; discriminate).
  split; [exact H|].
  exact (proj1 (identical_texts_score_hundred latin_lower (lit "Python developer") H)).
Defined.

Lemma compute_ats_score_monotone_witness :
  filtered_tokens latin_lower (lit "python docker")
    ⊆ filtered_tokens latin_lower (lit "python docker kubernetes")
  ∧ (filtered_tokens latin_lower (lit "python docker kubernetes")
       ∖ filtered_tokens latin_lower (lit "python docker"))
      ∩ filtered_tokens latin_lower (lit "python") = ∅
  ∧ filtered_tokens latin_lower (lit "python")
      ⊆ filtered_tokens latin_lower (lit "python docker")
  ∧ score_le
      (compute_ats_score latin_lower (lit "python") (lit "python docker kubernetes"))
      (compute_ats_score latin_lower (lit "python") (lit "python docker"))
  ∧ score_le
      (compute_ats_score latin_lower (lit "python") (lit "python docker"))
      (compute_ats_score latin_lower (lit "python docker") (lit "python docker")).
Proof.
  assert (filtered_tokens latin_lower (lit "python docker")
            ⊆ filtered_tokens latin_lower (lit "python docker kubernetes")) as H1
    by (apply (bool_decide_unpack _); vm_compute; exact I).
  assert ((filtered_tokens latin_lower (lit "python docker kubernetes")
             ∖ filtered_tokens latin_lower (lit "python docker"))
            ∩ filtered_tokens latin_lower (lit "python") = ∅) as H2
    by (vm_compute; reflexivity).
  assert (filtered_tokens latin_lower (lit "python")
            ⊆ filtered_tokens latin_lower (lit "python docker")) as H3
    by (apply (bool_decide_unpack _); vm_compute; exact I).
  split; [exact H1|]. split; [exact H2|]. split; [exact H3|].
  destruct (compute_ats_score_monotone latin_lower) as (Hjob & Hresume & _).
  split.
  - exact (Hjob (lit "python") (lit "python docker")
             (lit "python docker kubernetes") H1 H2).
  - exact (Hresume (lit "python") (lit "python docker") (lit "python docker") H3).
Defined.

Lemma skill_keyword_iff_substring_witness :
  lit "java" ∈ SKILL_KEYWORDS
  ∧ lit "java" ∈ extract_keywords latin_lower (lit "JavaScript developer") 10.
Proof.
  assert (lit "java" ∈ SKILL_KEYWORDS) as H
    by (apply (bool_decide_unpack _); vm_compute; exact I).
  split; [exact H|].
  apply (skill_keyword_iff_substring latin_lower (lit "JavaScript developer") 10
           (lit "java") H).
  exists [], (lit "script developer"). vm_compute. reflexivity.
Defined.

Lemma analysis_ignores_letter_case_witness :
  case_variant latin_lower ([8490%N] ++ lit "otlin and Python")
                           (lit "kOTLIN AND pYTHON")
  ∧ _tokenize latin_lower (lit "kOTLIN AND pYTHON")
    = _tokenize latin_lower ([8490%N] ++ lit "otlin and Python").
Proof.
  assert (case_variant latin_lower ([8490%N] ++ lit "otlin and Python")
                                   (lit "kOTLIN AND pYTHON")) as H
    by (unfold case_variant; apply (bool_decide_unpack _); vm_compute; exact I).
  split; [exact H|].
  exact (proj1 (analysis_ignores_letter_case latin_lower
                  ([8490%N] ++ lit "otlin and Python")
                  (lit "kOTLIN AND pYTHON") H)).
Defined.

(** C10, as the words say it, fails: the text [ſql] (LATIN SMALL LETTER
    LONG S, then [ql]) and its upper-case form [SQL] differ only in
    letter case, yet [str.lower] leaves the long s alone, so the first
    has the token [ql], no keyword and a score of 0 against [sql], and
    the second the token [sql], the keyword [sql] and a score of 100. *)
Lemma letter_case_counterexample :
  upper latin_upper [383; 113; 108]%N = lit "SQL"
  ∧ letter_case_variant latin_lower latin_upper [383; 113; 108]%N (lit "SQL")
  ∧ _tokenize latin_lower [383; 113; 108]%N = [lit "ql"]
  ∧ _tokenize latin_lower (lit "SQL") = [lit "sql"]
  ∧ _tokenize latin_lower (lit "SQL") ≠ _tokenize latin_lower [383; 113; 108]%N
  ∧ extract_keywords latin_lower [383; 113; 108]%N 10 = []
  ∧ extract_keywords latin_lower (lit "SQL") 10 = [lit "sql"]
  ∧ compute_ats_score latin_lower [383; 113; 108]%N (lit "sql") = Some float_zero
  ∧ compute_ats_score latin_lower (lit "SQL") (lit "sql")
    = Some (float_of_Z 100).
Proof.
  split_and!; try (vm_compute; reflexivity).
  - unfold letter_case_variant. apply (bool_decide_unpack _).
    vm_compute. exact I.
  - vm_compute. discriminate.
Qed.

Lemma extract_keywords_without_top_n_witness :
  (0 <= 0)%Z
  ∧ extract_keywords latin_lower (lit "Python and Docker daily") 0
    = [lit "docker"; lit "python"].
Proof.
  assert (0 <= 0)%Z as H by lia. split; [exact H|].
  rewrite (proj1 (extract_keywords_without_top_n latin_lower
                    (lit "Python and Docker daily") 0 H)).
  vm_compute. reflexivity.
Defined.

Lemma extract_keywords_grows_with_top_n_witness :
  (1 <= 2)%Z
  ∧ lit "aaa" ∈ extract_keywords latin_lower (lit "aaa bbb aaa bbb ccc") 1
  ∧ lit "aaa" ∈ extract_keywords latin_lower (lit "aaa bbb aaa bbb ccc") 2.
Proof.
  assert (1 <= 2)%Z as H by lia.
  assert (lit "aaa" ∈ extract_keywords latin_lower (lit "aaa bbb aaa bbb ccc") 1)
    as Hin by (apply (bool_decide_unpack _); vm_compute; exact I).
  split; [exact H|]. split; [exact Hin|].
  exact (extract_keywords_grows_with_top_n latin_lower
           (lit "aaa bbb aaa bbb ccc") 1 2 (lit "aaa") H Hin).
Defined.

Lemma extract_keywords_never_stopword_witness :
  lit "worked" ∈ extract_keywords latin_lower (lit "I worked with the team") 10
  ∧ (lit "worked" ∉ STOPWORDS).
Proof.
  assert (lit "worked"
            ∈ extract_keywords latin_lower (lit "I worked with the team") 10)
    as Hin by (apply (bool_decide_unpack _); vm_compute; exact I).
  split; [exact Hin|].
  exact (proj1 (extract_keywords_never_stopword latin_lower
                  (lit "I worked with the team") 10 (lit "worked") Hin)).
Defined.

Lemma extract_keywords_saturated_witness :
  (Z.of_nat (length (first_seen (counted_tokens latin_lower
                                   (lit "alpha beta alpha gamma")))) <= 3)%Z
  ∧ lit "gamma" ∈ counted_tokens latin_lower (lit "alpha beta alpha gamma")
  ∧ lit "gamma" ∈ extract_keywords latin_lower (lit "alpha beta alpha gamma") 3.
Proof.
  assert (Z.of_nat (length (first_seen (counted_tokens latin_lower
                                          (lit "alpha beta alpha gamma")))) <= 3)%Z
    as H by (vm_compute; discriminate).
  assert (lit "gamma" ∈ counted_tokens latin_lower (lit "alpha beta alpha gamma"))
    as Hin by (apply (bool_decide_unpack _); vm_compute; exact I).
  split; [exact H|]. split; [exact Hin|].
  exact (extract_keywords_saturated latin_lower (lit "alpha beta alpha gamma") 3
           (lit "gamma") H Hin).
Defined.

Lemma extract_keywords_no_letters_witness :
  Forall (λ c, is_alpha c = false) (lower latin_lower (lit "2024-05 #1!"))
  ∧ extract_keywords latin_lower (lit "2024-05 #1!") 10 = [].
Proof.
  assert (Forall (λ c, is_alpha c = false) (lower latin_lower (lit "2024-05 #1!")))
    as H by (apply (bool_decide_unpack _); vm_compute; exact I).
  split; [exact H|].
  exact (extract_keywords_no_letters latin_lower (lit "2024-05 #1!") 10 H).
Defined.

Lemma covering_resume_scores_hundred_witness :
  filtered_tokens latin_lower (lit "python docker") ≠ ∅
  ∧ filtered_tokens latin_lower (lit "python docker")
      ⊆ filtered_tokens latin_lower (lit "Docker, Python and Linux")
  ∧ compute_ats_score latin_lower (lit "Docker, Python and Linux")
      (lit "python docker") = Some (float_of_Z 100).
Proof.
  assert (filtered_tokens latin_lower (lit "python docker") ≠ ∅) as H1
    by (vm_compute; discriminate).
  assert (filtered_tokens latin_lower (lit "python docker")
            ⊆ filtered_tokens latin_lower (lit "Docker, Python and Linux")) as H2
    by (apply (bool_decide_unpack _); vm_compute; exact I).
  split; [exact H1|]. split; [exact H2|].
  exact (covering_resume_scores_hundred latin_lower
           (lit "Docker, Python and Linux") (lit "python docker") H1 H2).
Defined.

Lemma compute_ats_score_ignores_repetition_witness :
  is_separator 32 = true
  ∧ compute_ats_score latin_lower (lit "python" ++ 32%N :: lit "python")
      (lit "python docker")
    = compute_ats_score latin_lower (lit "python") (lit "python docker").
Proof.
  assert (is_separator 32 = true) as H by reflexivity.
  split; [exact H|].
  exact (proj1 (compute_ats_score_ignores_repetition latin_lower
                  (lit "python") (lit "docker") (lit "python docker") 32 H)).
Defined.

Lemma tokenize_joined_parts_witness :
  is_separator 10 = true
  ∧ _tokenize latin_lower (join [10%N] [lit "Led a team"; lit "Python 3"])
    = concat (_tokenize latin_lower <$> [lit "Led a team"; lit "Python 3"]).
Proof.
  assert (is_separator 10 = true) as H by reflexivity.
  split; [exact H|].
  exact (tokenize_joined_parts latin_lower 10
           [lit "Led a team"; lit "Python 3"] H).
Defined.

Lemma tokenize_round_trip_witness :
  (∀ c d, (128 <= c)%N → d ∈ latin_lower c → is_upper d = false)
  ∧ is_separator 32 = true
  ∧ _tokenize latin_lower
      (join [32%N] (_tokenize latin_lower (lit "C++ and Python3")))
    = _tokenize latin_lower (lit "C++ and Python3").
Proof.
  assert (is_separator 32 = true) as H by reflexivity.
  split; [exact latin_lower_cased|]. split; [exact H|].
  exact (tokenize_round_trip latin_lower latin_lower_cased
           (lit "C++ and Python3") 32 H).
Defined.

Lemma docx_paragraphs_are_lines_witness :
  lower latin_lower (splitext_ext (lit "/tmp/tmpk3x9_a1b.DOCX")) = lit ".docx"
  ∧ docx_paragraphs sample_docx_environment (lit "/tmp/tmpk3x9_a1b.DOCX")
    = Returned [lit "- Led a team"; lit "- Cut costs by 20%"]
  ∧ Forall (Forall (λ c, is_linebreak c = false))
      [lit "- Led a team"; lit "- Cut costs by 20%"]
  ∧ last [lit "- Led a team"; lit "- Cut costs by 20%"] ≠ Some []
  ∧ ∃ text,
      extract_text latin_lower sample_docx_environment
        (lit "/tmp/tmpk3x9_a1b.DOCX") = Returned text
      ∧ splitlines text = [lit "- Led a team"; lit "- Cut costs by 20%"].
Proof.
  assert (lower latin_lower (splitext_ext (lit "/tmp/tmpk3x9_a1b.DOCX"))
          = lit ".docx") as H1 by (vm_compute; reflexivity).
  assert (docx_paragraphs sample_docx_environment (lit "/tmp/tmpk3x9_a1b.DOCX")
          = Returned [lit "- Led a team"; lit "- Cut costs by 20%"]) as H2
    by reflexivity.
  assert (Forall (Forall (λ c, is_linebreak c = false))
            [lit "- Led a team"; lit "- Cut costs by 20%"]) as H3
    by (apply (bool_decide_unpack _); vm_compute; exact I).
  assert (last [lit "- Led a team"; lit "- Cut costs by 20%"] ≠ Some []) as H4
    by (vm_compute; discriminate).
  split; [exact H1|]. split; [exact H2|]. split; [exact H3|]. split; [exact H4|].
  exact (docx_paragraphs_are_lines latin_lower sample_docx_environment
           (lit "/tmp/tmpk3x9_a1b.DOCX") _ H1 H2 H3 H4).
Defined.

Lemma extract_text_falls_back_witness :
  (lower latin_lower (splitext_ext (lit "cv.pdf")) = lit ".docx" →
   docx_paragraphs failing_environment (lit "cv.pdf") = Raised)
  ∧ (lower latin_lower (splitext_ext (lit "cv.pdf")) = lit ".pdf" →
     pdf_extract_text failing_environment (lit "cv.pdf") = Raised)
  ∧ extract_text latin_lower failing_environment (lit "cv.pdf") = Returned [].
Proof.
  assert (lower latin_lower (splitext_ext (lit "cv.pdf")) = lit ".docx" →
          docx_paragraphs failing_environment (lit "cv.pdf") = Raised) as H1
    by (intros _; reflexivity).
  assert (lower latin_lower (splitext_ext (lit "cv.pdf")) = lit ".pdf" →
          pdf_extract_text failing_environment (lit "cv.pdf") = Raised) as H2
    by (intros _; reflexivity).
  split; [exact H1|]. split; [exact H2|].
  exact (extract_text_falls_back latin_lower failing_environment
           (lit "cv.pdf") H1 H2).
Defined.

Lemma analyze_resume_temporary_file_witness :
  ((∅ : gmap (list N) (list Byte.byte))
     !! temporary_path sample_tempdir sample_temp_stem ∅ sample_upload = None
   ∧ (analyze_resume latin_lower latin_decimal missing_docx missing_pdf
        ascii_decode sample_tempdir sample_temp_stem always_creatable
        nothing_left_behind always_unlinkable ∅ sample_upload
        (lit "team lead")).2 = ∅)
  ∧ (analyze_resume latin_lower latin_decimal missing_docx missing_pdf
       ascii_decode sample_tempdir sample_temp_stem never_creatable
       empty_left_behind always_unlinkable ∅ sample_upload
       (lit "team lead")).2
    = {[ temporary_path sample_tempdir sample_temp_stem ∅ sample_upload := [] ]}.
Proof.
  assert ((∅ : gmap (list N) (list Byte.byte))
            !! temporary_path sample_tempdir sample_temp_stem ∅ sample_upload
          = None) as H by apply lookup_empty.
  split; [split; [exact H|]|].
  - exact (proj1 (proj2 (analyze_resume_temporary_file latin_lower latin_decimal
                           missing_docx missing_pdf ascii_decode sample_tempdir
                           sample_temp_stem always_creatable nothing_left_behind
                           always_unlinkable ∅ sample_upload (lit "team lead")))
             H eq_refl eq_refl).
  - exact (proj1 (proj2 (proj2 (proj2 (proj2 (analyze_resume_temporary_file
                           latin_lower latin_decimal missing_docx missing_pdf
                           ascii_decode sample_tempdir sample_temp_stem
                           never_creatable empty_left_behind always_unlinkable
                           ∅ sample_upload (lit "team lead")))) eq_refl))
             [] eq_refl).
Defined.

Lemma analyze_resume_follows_uploaded_name_witness :
  plain_stem (sample_temp_stem ∅)
  ∧ always_creatable ∅
      (temporary_path sample_tempdir sample_temp_stem ∅ sample_upload) = true
  ∧ ∃ resume_text,
      extract_text latin_lower (upload_environment missing_docx missing_pdf
                                  ascii_decode (app.content sample_upload))
        (default [] (app.filename sample_upload)) = Returned resume_text
      ∧ (analyze_resume latin_lower latin_decimal missing_docx missing_pdf
           ascii_decode sample_tempdir sample_temp_stem always_creatable
           nothing_left_behind always_unlinkable ∅ sample_upload
           (lit "team lead")).1
        = Returned (response_for latin_lower latin_decimal resume_text
                      (lit "team lead")).
Proof.
  assert (plain_stem (sample_temp_stem ∅)) as H.
  { split; [by vm_compute|].
    apply (bool_decide_unpack _). vm_compute. exact I. }
  assert (always_creatable ∅
            (temporary_path sample_tempdir sample_temp_stem ∅ sample_upload)
          = true) as H' by reflexivity.
  split; [exact H|]. split; [exact H'|].
  exact (analyze_resume_follows_uploaded_name latin_lower latin_decimal
           missing_docx missing_pdf ascii_decode sample_tempdir sample_temp_stem
           always_creatable nothing_left_behind always_unlinkable
           ∅ sample_upload (lit "team lead") H H').
Defined.

Lemma compute_ats_score_ignores_padding_witness :
  is_separator 32 = true
  ∧ filtered_tokens latin_lower (lit "and the 2024 of it") = ∅
  ∧ compute_ats_score latin_lower (lit "python" ++ 32%N :: lit "and the 2024 of it")
      (lit "python docker")
    = compute_ats_score latin_lower (lit "python") (lit "python docker").
Proof.
  assert (is_separator 32 = true) as H1 by reflexivity.
  assert (filtered_tokens latin_lower (lit "and the 2024 of it") = ∅) as H2
    by (vm_compute; reflexivity).
  split; [exact H1|]. split; [exact H2|].
  exact (proj1 (compute_ats_score_ignores_padding latin_lower (lit "python")
                  (lit "python docker") 32 (lit "and the 2024 of it") H1 H2)).
Defined.

(** The scenario of the specification: a resume with one bullet line and
    a job description sharing two of its four significant tokens. *)
Example scenario_keywords :
  extract_keywords latin_lower
    (lit "I used Python and worked with Docker." ++ [10%N]
     ++ lit "- Improved performance") 10
  = lit <$> ["docker"; "improved"; "performance"; "python"; "used"; "worked"].
Proof. vm_compute. reflexivity. Qed.

Example scenario_score :
  compute_ats_score latin_lower
    (lit "I used Python and worked with Docker." ++ [10%N]
     ++ lit "- Improved performance")
    (lit "Looking for Python and Docker experience")
  = Some (float_of_Z 50).
Proof. vm_compute. reflexivity. Qed.

Example scenario_suggestions :
  generate_suggestions latin_decimal
    (lit "I used Python and worked with Docker." ++ [10%N]
     ++ lit "- Improved performance")
  = [lit "Consider quantifying this bullet: '- Improved performance'"].
Proof. vm_compute. reflexivity. Qed.

(** One match out of three: [round(1 / 3 * 100, 2)] is the float nearest
    to [33.33]. *)
Example one_of_three_score :
  compute_ats_score latin_lower (lit "python") (lit "python docker kubernetes")
  = Some (round_binary64 3333 100).
Proof. vm_compute. reflexivity. Qed.

(** The two most common of [aaa aaa bbb ccc]: [aaa] by count, and [bbb],
    seen before [ccc], by the tie. With three tokens of the same count
    the first two seen are taken. *)
Example most_common_tie_scenario :
  extract_keywords latin_lower (lit "aaa aaa bbb ccc") 2 = [lit "aaa"; lit "bbb"]
  ∧ extract_keywords latin_lower (lit "ccc bbb aaa ccc aaa bbb ddd") 2
    = [lit "bbb"; lit "ccc"]
  ∧ outranking (counted_tokens latin_lower (lit "ccc bbb aaa ccc aaa bbb ddd"))
               (lit "aaa")
    = [lit "ccc"; lit "bbb"].
Proof. vm_compute. split_and!; reflexivity. Qed.

(** A bullet line with an ARABIC-INDIC DIGIT THREE is taken as quantified;
    one with a ROMAN NUMERAL THREE, which is no decimal digit, is not. *)
Example unicode_digit_scenario :
  generate_suggestions latin_decimal (lit "- Led " ++ [1635%N] ++ lit " teams")
  = [fallback_message]
  ∧ generate_suggestions latin_decimal (lit "- Led " ++ [8546%N] ++ lit " teams")
    = [quantify_message (lit "- Led " ++ [8546%N] ++ lit " teams")].
Proof. vm_compute. split; reflexivity. Qed.
